(** * The trade-idea polling bridge: cursor, price oracle, bracket builder

    A shallow embedding of the two bridge scripts of the repository,

      - [src/py/ib_bridge_stp2.py]      (module [Stp2]: stop-limit entry,
        global order-id counter, three-attempt price lookup), and
      - [src/py - Copy/ib_bridge.py]    (module [Copy]: limit entry, parent id
        drawn from the broker, open-order ceiling),

    followed by the properties of the polling cursor, the price lookup, the
    bracket legs, the pricing signs, the open-order ceiling and the action
    codes.

    Conventions of the embedding.
      - Python [float] prices are exact rationals ([Q]); a quote field that
        the broker has not populated (a [nan], for which [nan > 0] is false)
        is any non-positive number.
      - Action codes and symbols are ASCII strings.
      - A trade idea's [ID] is the integer [int(trade["ID"])] denotes.
      - The configuration is a record of the values the scripts read from
        it, already converted by [int(...)] and [float(...)].
      - Everything outside the scripts (broker, feed, file system) is an
        [Env] of oracles indexed by the number of calls made so far, so each
        function is a total, executable state transformer.
      - A computation yields the events it performed (prints, broker calls,
        sleeps, file writes) next to its outcome, and keeps them when an
        exception is raised. *)

From Stdlib Require Import ZArith QArith Qabs List String Ascii Bool Lia Lqa.
From Stdlib Require Import Sorting.Sorted Sorting.Permutation.
From Stdlib Require Decimal DecimalString DecimalZ.
Import ListNotations.
Open Scope string_scope.
Open Scope Z_scope.
Open Scope list_scope.

(** ** Python primitives *)

Module Py.

(** [x > y] on numbers. *)
Definition gt (x y : Q) : bool := negb (Qle_bool x y).

(** Code points for which [str.isspace] holds, among ASCII:
    TAB, LF, VT, FF, CR, FS, GS, RS, US and the space. *)
Definition isspace (c : ascii) : bool :=
  let n := nat_of_ascii c in
  ((9 <=? n) && (n <=? 13))%nat || ((28 <=? n) && (n <=? 32))%nat.

Fixpoint lstrip (s : string) : string :=
  match s with
  | EmptyString => EmptyString
  | String c r => if isspace c then lstrip r else s
  end.

Fixpoint rstrip (s : string) : string :=
  match s with
  | EmptyString => EmptyString
  | String c r =>
      match rstrip r with
      | EmptyString => if isspace c then EmptyString else String c EmptyString
      | r' => String c r'
      end
  end.

(** [s.strip()] *)
Definition strip (s : string) : string := rstrip (lstrip s).

Definition upper_char (c : ascii) : ascii :=
  let n := nat_of_ascii c in
  if ((97 <=? n) && (n <=? 122))%nat then ascii_of_nat (n - 32) else c.

(** [s.upper()] *)
Fixpoint upper (s : string) : string :=
  match s with
  | EmptyString => EmptyString
  | String c r => String (upper_char c) (upper r)
  end.

(** A [dict] with string keys, as an association list; [lookup] is
    [d.get(k)] and [mem] is [k in d]. *)
Fixpoint lookup {V : Type} (d : list (string * V)) (k : string) : option V :=
  match d with
  | [] => None
  | (k', v) :: r => if String.eqb k k' then Some v else lookup r k
  end.

Definition mem {V : Type} (d : list (string * V)) (k : string) : bool :=
  match lookup d k with Some _ => true | None => false end.

End Py.

(** ** Computations with a world, exceptions and an event log *)

Section Effects.

Context {W Ev X : Type}.

(** The outcome of running a computation: it returned a value or raised,
    in a final world, after performing the events listed (oldest first). *)
Inductive Run (A : Type) : Type :=
| Returned (a : A) (w : W) (evs : list Ev)
| Raised (x : X) (w : W) (evs : list Ev).

Arguments Returned {A} a w evs.
Arguments Raised {A} x w evs.

Definition M (A : Type) : Type := W -> Run A.

Definition world {A} (r : Run A) : W :=
  match r with Returned _ w _ => w | Raised _ w _ => w end.

Definition events {A} (r : Run A) : list Ev :=
  match r with Returned _ _ evs => evs | Raised _ _ evs => evs end.

Definition returned {A} (r : Run A) : bool :=
  match r with Returned _ _ _ => true | Raised _ _ _ => false end.

(** [after evs r]: the run [r], preceded by the events [evs]. *)
Definition after {A} (evs : list Ev) (r : Run A) : Run A :=
  match r with
  | Returned a w evs' => Returned a w (evs ++ evs')
  | Raised x w evs' => Raised x w (evs ++ evs')
  end.

Definition ret {A} (a : A) : M A := fun w => Returned a w [].

Definition bind {A B} (m : M A) (f : A -> M B) : M B := fun w =>
  match m w with
  | Returned a w' evs => after evs (f a w')
  | Raised x w' evs => Raised x w' evs
  end.

Definition raise {A} (x : X) : M A := fun w => Raised x w [].
Definition emit (e : Ev) : M unit := fun w => Returned tt w [e].
(** Read a component of the world; update the world. *)
Definition gets {A} (f : W -> A) : M A := fun w => Returned (f w) w [].
Definition modify (f : W -> W) : M unit := fun w => Returned tt (f w) [].

End Effects.

Arguments Run : clear implicits.
Arguments M : clear implicits.
Arguments Returned {W Ev X A} a w evs.
Arguments Raised {W Ev X A} x w evs.

Declare Scope py_scope.
Delimit Scope py_scope with py.
Notation "x <- c1 ;; c2" := (bind c1 (fun x => c2))
  (at level 61, c1 at next level, right associativity) : py_scope.
Notation "c1 ;; c2" := (bind c1 (fun _ => c2))
  (at level 61, right associativity) : py_scope.

(** ** Data shared by the two scripts *)

(** A trade idea as delivered by the feed: a JSON object.  [BuySell] may be
    missing; [source] is the key the stop-limit script adds. *)
Record Trade : Type := {
  ID : Z;
  Symbol : string;
  BuySell : option string;
  source : option string
}.

(** [Future(symbol, lastTradeDateOrContractMonth, exchange, currency)] *)
Record Contract : Type := {
  symbol : string;
  lastTradeDateOrContractMonth : string;
  exchange : string;
  currency : string
}.

(** The live ticker of a contract, as read after the pause. *)
Record Ticker : Type := { last : Q; close : Q }.

(** An entry of the broker's open-order snapshot. *)
Record OpenOrder : Type := {
  is_Order : bool;                 (* isinstance(order, Order) *)
  open_symbol : string;            (* order.contract.symbol *)
  open_expiry : string;            (* order.contract.lastTradeDateOrContractMonth *)
  open_action : string             (* order.action *)
}.

(** The three order classes of the broker library with the prices each takes. *)
Inductive OrderKind : Type :=
| StopLimitOrder (stopPrice lmtPrice : Q)
| LimitOrder (lmtPrice : Q)
| StopOrder (stopPrice : Q).

(** Content of [last_processed_id.txt]. *)
Inductive FileState : Type :=
| Missing
| Unparsable
| Holds (id : Z).

(** Exceptions the scripts raise themselves. *)
Inductive Exn : Type :=
| ValueError (what : string)
| TypeError (what : string)
| KeyError (key : string).

(** What lies outside the scripts.  Each oracle is indexed by the number of
    earlier calls of the same kind. *)
Record Env : Type := {
  connect_ok : bool;                                  (* ib.connect succeeds *)
  feed : nat -> option (list Trade);                  (* None: RequestException *)
  qualifyContracts : nat -> Contract -> list Contract;
  reqMktData : nat -> Contract -> Ticker;
  reqAllOpenOrders : nat -> list OpenOrder
}.

(** The mutable state: the stop-limit script's global, the cursor file, the
    broker client's request-id sequence and the call counts of the oracles. *)
Record World : Type := {
  ORDER_ID_COUNTER : option Z;
  last_processed_file : FileState;
  reqIdSeq : Z;
  n_feed : nat;
  n_qualify : nat;
  n_mktdata : nat;
  n_openorders : nat
}.

Definition set_ORDER_ID_COUNTER (v : option Z) (w : World) : World :=
  {| ORDER_ID_COUNTER := v; last_processed_file := last_processed_file w;
     reqIdSeq := reqIdSeq w; n_feed := n_feed w; n_qualify := n_qualify w;
     n_mktdata := n_mktdata w; n_openorders := n_openorders w |}.

Definition set_last_processed_file (f : FileState) (w : World) : World :=
  {| ORDER_ID_COUNTER := ORDER_ID_COUNTER w; last_processed_file := f;
     reqIdSeq := reqIdSeq w; n_feed := n_feed w; n_qualify := n_qualify w;
     n_mktdata := n_mktdata w; n_openorders := n_openorders w |}.

Definition set_reqIdSeq (v : Z) (w : World) : World :=
  {| ORDER_ID_COUNTER := ORDER_ID_COUNTER w; last_processed_file := last_processed_file w;
     reqIdSeq := v; n_feed := n_feed w; n_qualify := n_qualify w;
     n_mktdata := n_mktdata w; n_openorders := n_openorders w |}.

Definition tick_feed (w : World) : World :=
  {| ORDER_ID_COUNTER := ORDER_ID_COUNTER w; last_processed_file := last_processed_file w;
     reqIdSeq := reqIdSeq w; n_feed := S (n_feed w); n_qualify := n_qualify w;
     n_mktdata := n_mktdata w; n_openorders := n_openorders w |}.

Definition tick_qualify (w : World) : World :=
  {| ORDER_ID_COUNTER := ORDER_ID_COUNTER w; last_processed_file := last_processed_file w;
     reqIdSeq := reqIdSeq w; n_feed := n_feed w; n_qualify := S (n_qualify w);
     n_mktdata := n_mktdata w; n_openorders := n_openorders w |}.

Definition tick_mktdata (w : World) : World :=
  {| ORDER_ID_COUNTER := ORDER_ID_COUNTER w; last_processed_file := last_processed_file w;
     reqIdSeq := reqIdSeq w; n_feed := n_feed w; n_qualify := n_qualify w;
     n_mktdata := S (n_mktdata w); n_openorders := n_openorders w |}.

Definition tick_openorders (w : World) : World :=
  {| ORDER_ID_COUNTER := ORDER_ID_COUNTER w; last_processed_file := last_processed_file w;
     reqIdSeq := reqIdSeq w; n_feed := n_feed w; n_qualify := n_qualify w;
     n_mktdata := n_mktdata w; n_openorders := S (n_openorders w) |}.

(** What the scripts print, by message, with the values interpolated. *)
Inductive Msg (O : Type) : Type :=
| LastProcessedIdRead (id : Z)
| InvalidLastProcessedId
| NoLastProcessedIdFile
| LastProcessedIdUpdated (id : Z)
| ErrorFetchingTradeIdeas
| RetryFetchingPrice (attempt count : nat) (sym : string)
| ProcessingTradeID (id : Z) (src : string)
| InvalidAction (action : string) (id : Z)
| MappedAction (id : Z) (action : string)
| QualificationFailed (id : Z)
| LatestPrice (p : Q)
| OrderPrices (ps : list Q)
| PlacingOrder (o : O)
| OpenOrderCounts (buy_orders sell_orders : Z)
| OrdersPlaced
| OrderLimitReached
| ApiConnectionFailed
| Polling
| ProcessingNewTradeID (id : Z)
| IgnoringTradeID (id : Z)
| NoNewTradeIdeas.

(** What the scripts do to the outside. *)
Inductive Event (O : Type) : Type :=
| Print (m : Msg O)
| HttpGet
| QualifyContracts (c : Contract)
| ReqMktData (c : Contract)
| ReqAllOpenOrders
| GetReqId (id : Z)
| Sleep (seconds : Z)
| PlaceOrder (c : Contract) (o : O)
| WriteFile (id : Z).

Arguments LastProcessedIdRead {O}. Arguments InvalidLastProcessedId {O}.
Arguments NoLastProcessedIdFile {O}. Arguments LastProcessedIdUpdated {O}.
Arguments ErrorFetchingTradeIdeas {O}. Arguments RetryFetchingPrice {O}.
Arguments ProcessingTradeID {O}. Arguments InvalidAction {O}.
Arguments MappedAction {O}. Arguments QualificationFailed {O}.
Arguments LatestPrice {O}. Arguments OrderPrices {O}. Arguments PlacingOrder {O}.
Arguments OpenOrderCounts {O}. Arguments OrdersPlaced {O}.
Arguments OrderLimitReached {O}. Arguments ApiConnectionFailed {O}.
Arguments Polling {O}. Arguments ProcessingNewTradeID {O}.
Arguments IgnoringTradeID {O}. Arguments NoNewTradeIdeas {O}.
Arguments Print {O}. Arguments HttpGet {O}. Arguments QualifyContracts {O}.
Arguments ReqMktData {O}. Arguments ReqAllOpenOrders {O}. Arguments GetReqId {O}.
Arguments Sleep {O}. Arguments PlaceOrder {O}. Arguments WriteFile {O}.

(** The orders handed to the broker, in submission order. *)
Fixpoint placed {O : Type} (evs : list (Event O)) : list O :=
  match evs with
  | [] => []
  | PlaceOrder _ o :: r => o :: placed r
  | _ :: r => placed r
  end.

(** The ideas handed to [process_trade_idea], in order. *)
Fixpoint processed {O : Type} (evs : list (Event O)) : list Z :=
  match evs with
  | [] => []
  | Print (ProcessingTradeID id _) :: r => id :: processed r
  | _ :: r => processed r
  end.

(** The values written to the cursor file, in order. *)
Fixpoint written {O : Type} (evs : list (Event O)) : list Z :=
  match evs with
  | [] => []
  | WriteFile id :: r => id :: written r
  | _ :: r => written r
  end.

(** [sorted(trade_ideas, key=lambda t: int(t["ID"]))]: the stable sort by
    identifier (an idea stays ahead of later ideas with the same key). *)
Fixpoint insert_by_ID (t : Trade) (l : list Trade) : list Trade :=
  match l with
  | [] => [t]
  | u :: r => if ID t <=? ID u then t :: l else u :: insert_by_ID t r
  end.

Fixpoint sorted (l : list Trade) : list Trade :=
  match l with
  | [] => []
  | t :: r => insert_by_ID t (sorted r)
  end.

Definition is_nonempty {A : Type} (l : list A) : bool :=
  match l with [] => false | _ => true end.

(** ** [src/py/ib_bridge_stp2.py] *)

Module Stp2.

(** An order object: its class and constructor arguments, and the attributes
    the script assigns afterwards.  [parentId] is [None] where the script
    leaves the attribute alone. *)
Record Order : Type := {
  kind : OrderKind;
  action : string;
  totalQuantity : Z;
  orderId : Z;
  parentId : option Z;
  transmit : bool
}.

(** The [ORDER], [CONTRACT] and [SERVICE] sections of the configuration
    file, with [int(...)] and [float(...)] applied. *)
Record Config : Type := {
  ORDER_quantity : Z;
  ORDER_stop_offset : Q;
  ORDER_limit_offset : Q;
  ORDER_stop_loss_offset : Q;
  ORDER_take_profit_offset : Q;
  ORDER_source : string;
  CONTRACT_symbol : string;
  CONTRACT_expiry : string;
  CONTRACT_exchange : string;
  CONTRACT_currency : string
}.

(** The four prices computed for a bracket. *)
Record Prices : Type := {
  stop_price : Q;
  limit_price : Q;
  stop_loss_price : Q;
  take_profit_price : Q
}.

Definition MAX_ORDERS : Z := 15.

Definition action_map : list (string * string) := [("L", "BUY"); ("S", "SELL")].

(** Lines 118-123: the side of an idea, [None] when the script skips it. *)
Definition resolve_action (trade : Trade) : option string :=
  let action :=
    Py.upper (Py.strip (match BuySell trade with Some s => s | None => "" end)) in
  if negb (Py.mem action_map action) then None
  else Py.lookup action_map action.

(** Lines 149-161: the prices of the legs. *)
Definition order_prices (action : string)
    (latest_price stop_offset limit_offset stop_loss_offset take_profit_offset : Q)
    : option Prices :=
  if String.eqb action "BUY" then
    let stop_price := (latest_price + Qabs stop_offset)%Q in
    Some {| stop_price := stop_price;
            limit_price := latest_price + Qabs limit_offset;
            stop_loss_price := stop_price + stop_loss_offset;
            take_profit_price := stop_price + Qabs take_profit_offset |}%Q
  else if String.eqb action "SELL" then
    let stop_price := (latest_price - Qabs stop_offset)%Q in
    Some {| stop_price := stop_price;
            limit_price := latest_price - Qabs limit_offset;
            stop_loss_price := stop_price + Qabs stop_loss_offset;
            take_profit_price := stop_price - Qabs take_profit_offset |}%Q
  else None.

Definition opposite (action : string) : string :=
  if String.eqb action "BUY" then "SELL" else "BUY".

Section WithEnv.

Variable env : Env.

Definition Mio : Type -> Type := M World (Event Order) Exn.
Local Open Scope py_scope.

Definition print (m : Msg Order) : Mio unit := emit (Print m).

(** [ib.sleep(s)] and [time.sleep(s)] *)
Definition sleep (seconds : Z) : Mio unit := emit (Sleep seconds).

Definition read_last_processed_id : Mio Z :=
  content <- gets last_processed_file;;
  match content with
  | Holds last_id => print (LastProcessedIdRead last_id);; ret last_id
  | Unparsable => print InvalidLastProcessedId;; ret 0
  | Missing => print NoLastProcessedIdFile;; ret 0
  end.

Definition write_last_processed_id (last_id : Z) : Mio unit :=
  modify (set_last_processed_file (Holds last_id));;
  emit (WriteFile last_id);;
  print (LastProcessedIdUpdated last_id).

Definition fetch_trade_ideas : Mio (list Trade) :=
  n <- gets n_feed;;
  modify tick_feed;;
  emit HttpGet;;
  match feed env n with
  | Some ideas => ret ideas
  | None => print ErrorFetchingTradeIdeas;; ret []
  end.

Definition ib_reqMktData (contract : Contract) : Mio Ticker :=
  n <- gets n_mktdata;;
  modify tick_mktdata;;
  emit (ReqMktData contract);;
  ret (reqMktData env n contract).

Definition ib_qualifyContracts (contract : Contract) : Mio (list Contract) :=
  n <- gets n_qualify;;
  modify tick_qualify;;
  emit (QualifyContracts contract);;
  ret (qualifyContracts env n contract).

(** [ib.client.getReqId()]: the next request id of the session. *)
Definition ib_client_getReqId : Mio Z :=
  id <- gets reqIdSeq;;
  modify (set_reqIdSeq (id + 1));;
  emit (GetReqId id);;
  ret id.

Definition ib_placeOrder (contract : Contract) (order : Order) : Mio unit :=
  emit (PlaceOrder contract order).

Definition retry_count : nat := 3.

(** The body of [for attempt in range(retry_count)] over the attempts
    that remain, and the [raise] that follows the loop. *)
Fixpoint fetch_attempts (contract : Contract) (range : list nat) : Mio Q :=
  match range with
  | [] =>
      raise (ValueError
               ("Unable to fetch the latest price for "
                ++ symbol contract ++ ".")%string)
  | attempt :: rest =>
      ticker <- ib_reqMktData contract;;
      sleep 2;;
      if Py.gt (last ticker) 0 then ret (last ticker)
      else if Py.gt (close ticker) 0 then ret (close ticker)
      else
        print (RetryFetchingPrice (attempt + 1) retry_count (symbol contract));;
        fetch_attempts contract rest
  end.

Definition fetch_latest_price (contract : Contract) : Mio Q :=
  fetch_attempts contract (seq 0 retry_count).

Definition initialize_order_id : Mio unit :=
  counter <- gets ORDER_ID_COUNTER;;
  match counter with
  | None =>
      id <- ib_client_getReqId;;
      modify (set_ORDER_ID_COUNTER (Some id))
  | Some _ => ret tt
  end.

Definition get_next_order_id : Mio Z :=
  counter <- gets ORDER_ID_COUNTER;;
  match counter with
  | Some n =>
      modify (set_ORDER_ID_COUNTER (Some (n + 1)));;
      ret (n + 1)
  | None => raise (TypeError "unsupported operand type(s) for +=")
  end.

Definition bracket_order (action : string) (quantity : Z)
    (stop_price limit_price stop_loss_price take_profit_price : Q)
    : Mio (list Order) :=
  parent_order_id <- get_next_order_id;;
  let parent :=
    {| kind := StopLimitOrder stop_price limit_price;
       action := action; totalQuantity := quantity;
       orderId := parent_order_id; parentId := None; transmit := false |} in
  take_profit_id <- get_next_order_id;;
  let take_profit :=
    {| kind := LimitOrder take_profit_price;
       action := opposite action; totalQuantity := quantity;
       orderId := take_profit_id; parentId := Some parent_order_id;
       transmit := false |} in
  stop_loss_id <- get_next_order_id;;
  let stop_loss :=
    {| kind := StopOrder stop_loss_price;
       action := opposite action; totalQuantity := quantity;
       orderId := stop_loss_id; parentId := Some parent_order_id;
       transmit := true |} in
  ret [parent; take_profit; stop_loss].

(** [for order in bracket_orders: print(...); ib.placeOrder(...)] *)
Fixpoint place_all (contract : Contract) (orders : list Order) : Mio unit :=
  match orders with
  | [] => ret tt
  | order :: rest =>
      print (PlacingOrder order);;
      ib_placeOrder contract order;;
      place_all contract rest
  end.

Definition process_trade_idea (trade : Trade) (config : Config) : Mio unit :=
  print (ProcessingTradeID (ID trade)
           (match source trade with Some s => s | None => "Unknown" end));;
  match resolve_action trade with
  | None =>
      print (InvalidAction
               (Py.upper (Py.strip (match BuySell trade with
                                    | Some s => s | None => "" end)))
               (ID trade))
  | Some action =>
      print (MappedAction (ID trade) action);;
      let quantity := ORDER_quantity config in
      let stop_offset := ORDER_stop_offset config in
      let limit_offset := ORDER_limit_offset config in
      let stop_loss_offset := ORDER_stop_loss_offset config in
      let take_profit_offset := ORDER_take_profit_offset config in
      let contract :=
        {| symbol := CONTRACT_symbol config;
           lastTradeDateOrContractMonth := CONTRACT_expiry config;
           exchange := CONTRACT_exchange config;
           currency := CONTRACT_currency config |} in
      qualified_contract <- ib_qualifyContracts contract;;
      match qualified_contract with
      | [] => print (QualificationFailed (ID trade))
      | qualified_contract_0 :: _ =>
          latest_price <- fetch_latest_price qualified_contract_0;;
          match order_prices action latest_price stop_offset limit_offset
                  stop_loss_offset take_profit_offset with
          | None => print (InvalidAction action (ID trade))
          | Some p =>
              print (LatestPrice latest_price);;
              print (OrderPrices [stop_price p; limit_price p;
                                  stop_loss_price p; take_profit_price p]);;
              initialize_order_id;;
              bracket_orders <-
                bracket_order action quantity (stop_price p) (limit_price p)
                  (stop_loss_price p) (take_profit_price p);;
              place_all qualified_contract_0 bracket_orders;;
              sleep 2
          end
      end
  end.

Definition set_source (trade : Trade) (src : string) : Trade :=
  {| ID := ID trade; Symbol := Symbol trade; BuySell := BuySell trade;
     source := Some src |}.

(** Lines 203-214: the loop over the sorted ideas.  The local variable
    [last_processed_id] is threaded through and returned. *)
Fixpoint for_trades (config : Config) (trade_ideas : list Trade)
    (last_processed_id : Z) : Mio Z :=
  match trade_ideas with
  | [] => ret last_processed_id
  | trade :: rest =>
      let trade_id := ID trade in
      let trade := set_source trade (ORDER_source config) in
      if trade_id >? last_processed_id then
        print (ProcessingNewTradeID trade_id);;
        process_trade_idea trade config;;
        write_last_processed_id trade_id;;
        for_trades config rest trade_id
      else
        print (IgnoringTradeID trade_id);;
        for_trades config rest last_processed_id
  end.

(** Lines 194-217: one turn of [while True]. *)
Definition poll_cycle (config : Config) : Mio unit :=
  last_processed_id <- read_last_processed_id;;
  print Polling;;
  trade_ideas <- fetch_trade_ideas;;
  (if is_nonempty trade_ideas then
     for_trades config (sorted trade_ideas) last_processed_id;; ret tt
   else print NoNewTradeIdeas);;
  sleep 30.

(** [while True] run for [turns] turns. *)
Fixpoint while_True (turns : nat) (body : Mio unit) : Mio unit :=
  match turns with
  | O => ret tt
  | S n => body;; while_True n body
  end.

Definition poll_cashbox_service (config : Config) (turns : nat) : Mio unit :=
  if connect_ok env then while_True turns (poll_cycle config)
  else print ApiConnectionFailed.

End WithEnv.

End Stp2.

(** ** [src/py - Copy/ib_bridge.py] *)

Module Copy.

(** An order object of this script: it assigns the attributes [OrderId],
    [ParentId] and [Transmit] (so spelled) after construction. *)
Record Order : Type := {
  kind : OrderKind;
  action : string;
  totalQuantity : Z;
  OrderId : Z;
  ParentId : option Z;
  Transmit : bool
}.

Record Config : Type := {
  ORDER_entry_price_offset : Q;
  ORDER_stop_loss_price : Q;
  ORDER_limit_price : Q;
  CONTRACT_expiry : string;
  CONTRACT_exchange : string;
  CONTRACT_currency : string
}.

Definition symbol_map : list (string * string) := [("SPX", "MES")].

(** Lines 152-158: the side of an idea, [None] when the script skips it. *)
Definition resolve_action (action : string) : option string :=
  if String.eqb action "S" then Some "SELL"
  else if String.eqb action "B" then Some "BUY"
  else None.

Definition opposite (action : string) : string :=
  if String.eqb action "BUY" then "SELL" else "BUY".

(** [action in ['BUY', 'SELL']] *)
Definition is_side (action : string) : bool :=
  String.eqb action "BUY" || String.eqb action "SELL".

Section WithEnv.

Variable env : Env.

Definition Mio : Type -> Type := M World (Event Order) Exn.
Local Open Scope py_scope.

Definition print (m : Msg Order) : Mio unit := emit (Print m).
Definition sleep (seconds : Z) : Mio unit := emit (Sleep seconds).

Definition read_last_processed_id : Mio (option Z) :=
  content <- gets last_processed_file;;
  match content with
  | Holds last_id => ret (Some last_id)
  | Unparsable => ret None
  | Missing => ret None
  end.

Definition write_last_processed_id (last_id : Z) : Mio unit :=
  modify (set_last_processed_file (Holds last_id));;
  emit (WriteFile last_id).

Definition fetch_trade_ideas : Mio (list Trade) :=
  n <- gets n_feed;;
  modify tick_feed;;
  emit HttpGet;;
  match feed env n with
  | Some ideas => ret ideas
  | None => print ErrorFetchingTradeIdeas;; ret []
  end.

Definition ib_reqMktData (contract : Contract) : Mio Ticker :=
  n <- gets n_mktdata;;
  modify tick_mktdata;;
  emit (ReqMktData contract);;
  ret (reqMktData env n contract).

Definition ib_qualifyContracts (contract : Contract) : Mio (list Contract) :=
  n <- gets n_qualify;;
  modify tick_qualify;;
  emit (QualifyContracts contract);;
  ret (qualifyContracts env n contract).

Definition ib_reqAllOpenOrders : Mio (list OpenOrder) :=
  n <- gets n_openorders;;
  modify tick_openorders;;
  emit ReqAllOpenOrders;;
  ret (reqAllOpenOrders env n).

(** [ib.client.getReqId()]: the next request id of the session. *)
Definition ib_client_getReqId : Mio Z :=
  id <- gets reqIdSeq;;
  modify (set_reqIdSeq (id + 1));;
  emit (GetReqId id);;
  ret id.

Definition ib_placeOrder (contract : Contract) (order : Order) : Mio unit :=
  emit (PlaceOrder contract order).

Definition fetch_latest_price (contract : Contract) : Mio Q :=
  ticker <- ib_reqMktData contract;;
  sleep 2;;
  if Py.gt (last ticker) 0 then ret (last ticker)
  else if Py.gt (close ticker) 0 then ret (close ticker)
  else raise (ValueError "Unable to fetch the latest price for the contract.").

(** Lines 57-68: the counting loop of [check_order_limit]. *)
Fixpoint count_orders (contract : Contract) (open_orders : list OpenOrder)
    (buy_orders sell_orders : Z) : Z * Z :=
  match open_orders with
  | [] => (buy_orders, sell_orders)
  | order :: rest =>
      if is_Order order then
        if String.eqb (open_symbol order) (symbol contract)
           && String.eqb (open_expiry order)
                (lastTradeDateOrContractMonth contract) then
          if String.eqb (open_action order) "BUY" then
            count_orders contract rest (buy_orders + 1) sell_orders
          else if String.eqb (open_action order) "SELL" then
            count_orders contract rest buy_orders (sell_orders + 1)
          else count_orders contract rest buy_orders sell_orders
        else count_orders contract rest buy_orders sell_orders
      else count_orders contract rest buy_orders sell_orders
  end.

Definition check_order_limit (contract : Contract) : Mio (Z * Z) :=
  open_orders <- ib_reqAllOpenOrders;;
  let counts := count_orders contract open_orders 0 0 in
  print (OpenOrderCounts (fst counts) (snd counts));;
  ret counts.

Fixpoint place_all (contract : Contract) (orders : list Order) : Mio unit :=
  match orders with
  | [] => ret tt
  | order :: rest => ib_placeOrder contract order;; place_all contract rest
  end.

(** The test of line 77. *)
Definition under_limit (buy_orders sell_orders : Z) : bool :=
  (buy_orders <? 15) && (sell_orders <? 15).

Definition place_orders_if_under_limit (contract : Contract)
    (orders : list Order) : Mio unit :=
  counts <- check_order_limit contract;;
  let buy_orders := fst counts in
  let sell_orders := snd counts in
  if under_limit buy_orders sell_orders then
    place_all contract orders;;
    print OrdersPlaced
  else print OrderLimitReached.

Definition bracket_order (parent_order_id : Z) (action : string)
    (quantity : Z) (entry_price stop_loss_offset limit_price_offset : Q)
    : Mio (list Order) :=
  if negb (is_side action) then raise (ValueError "Invalid action")
  else
    let parent :=
      {| kind := LimitOrder entry_price;
         action := action; totalQuantity := quantity;
         OrderId := parent_order_id; ParentId := None; Transmit := false |} in
    let take_profit_action := opposite action in
    let take_profit :=
      {| kind := LimitOrder (entry_price + limit_price_offset);
         action := take_profit_action; totalQuantity := quantity;
         OrderId := parent_order_id + 1; ParentId := Some parent_order_id;
         Transmit := false |} in
    let stop_loss_action := opposite action in
    let stop_loss :=
      {| kind := StopOrder (entry_price - stop_loss_offset);
         action := stop_loss_action; totalQuantity := quantity;
         OrderId := parent_order_id + 2; ParentId := Some parent_order_id;
         Transmit := true |} in
    ret [parent; take_profit; stop_loss].

Definition process_trade_idea (trade : Trade) (config : Config) : Mio unit :=
  print (ProcessingTradeID (ID trade) "");;
  let symbol := Symbol trade in
  action <- match BuySell trade with
            | Some s => ret s
            | None => raise (KeyError "BuySell")
            end;;
  let entry_price_offset := ORDER_entry_price_offset config in
  let stop_loss_offset := ORDER_stop_loss_price config in
  let limit_price_offset := ORDER_limit_price config in
  let symbol :=
    match Py.lookup symbol_map symbol with Some s => s | None => symbol end in
  let contract :=
    {| symbol := symbol;
       lastTradeDateOrContractMonth := CONTRACT_expiry config;
       exchange := CONTRACT_exchange config;
       currency := CONTRACT_currency config |} in
  qualified_contract <- ib_qualifyContracts contract;;
  match qualified_contract with
  | [] => print (QualificationFailed (ID trade))
  | qualified_contract_0 :: _ =>
      latest_price <- fetch_latest_price qualified_contract_0;;
      let adjusted_entry_price := (latest_price + entry_price_offset)%Q in
      let stop_loss_price := (adjusted_entry_price - stop_loss_offset)%Q in
      let target_price := (adjusted_entry_price + limit_price_offset)%Q in
      print (LatestPrice latest_price);;
      print (OrderPrices [adjusted_entry_price; stop_loss_price; target_price]);;
      match resolve_action action with
      | None => print (InvalidAction action (ID trade))
      | Some action =>
          parent_order_id <- ib_client_getReqId;;
          bracket_orders <-
            bracket_order parent_order_id action 1 adjusted_entry_price
              stop_loss_offset limit_price_offset;;
          place_orders_if_under_limit qualified_contract_0 bracket_orders
      end
  end.

(** [last_processed_id is None or int(trade['ID']) > last_processed_id] *)
Definition is_new (last_processed_id : option Z) (trade : Trade) : bool :=
  match last_processed_id with
  | None => true
  | Some l => ID trade >? l
  end.

(** Lines 184-190: the loop over the sorted ideas. *)
Fixpoint for_trades (config : Config) (trade_ideas : list Trade)
    (last_processed_id : option Z) : Mio (option Z) :=
  match trade_ideas with
  | [] => ret last_processed_id
  | trade :: rest =>
      if is_new last_processed_id trade then
        process_trade_idea trade config;;
        write_last_processed_id (ID trade);;
        for_trades config rest (Some (ID trade))
      else
        print (IgnoringTradeID (ID trade));;
        for_trades config rest last_processed_id
  end.

(** Lines 179-195: one turn of [while True]; the cursor lives in the
    local variable between turns. *)
Definition poll_cycle (config : Config) (last_processed_id : option Z)
    : Mio (option Z) :=
  print Polling;;
  trade_ideas <- fetch_trade_ideas;;
  last_processed_id <-
    (if is_nonempty trade_ideas then
       for_trades config (sorted trade_ideas) last_processed_id
     else print NoNewTradeIdeas;; ret last_processed_id);;
  sleep 30;;
  ret last_processed_id.

Fixpoint while_True (turns : nat) (config : Config)
    (last_processed_id : option Z) : Mio unit :=
  match turns with
  | O => ret tt
  | S n =>
      last_processed_id <- poll_cycle config last_processed_id;;
      while_True n config last_processed_id
  end.

Definition poll_cashbox_service (config : Config) (turns : nat) : Mio unit :=
  last_processed_id <- read_last_processed_id;;
  if connect_ok env then while_True turns config last_processed_id
  else print ApiConnectionFailed.

End WithEnv.

End Copy.

(** ** The entry points of the two scripts *)

Module Cli.

(** [s.split(sep, 1)] for a separator of one character. *)
Fixpoint split_once (sep : ascii) (s : string) : list string :=
  match s with
  | EmptyString => [EmptyString]
  | String c r =>
      if Ascii.eqb c sep then [EmptyString; r]
      else match split_once sep r with
           | h :: t => String c h :: t
           | [] => [String c EmptyString]
           end
  end.

(** The file system as the entry points see it: the path
    [os.path.join(os.path.dirname(__file__), '../cfg', config_file)], whether
    a path exists, and the configuration a file at a path holds. *)
Record Disk (C : Type) : Type := {
  config_file_path : string -> string;
  os_path_exists : string -> bool;
  config_read : string -> C
}.

Arguments config_file_path {C}. Arguments os_path_exists {C}.
Arguments config_read {C}.

(** How an entry point ends: with a message and [sys.exit(1)], with an
    uncaught exception, or by calling [poll_cashbox_service(config)]. *)
Inductive Launch (C : Type) : Type :=
| Usage
| InvalidArgument
| ConfigurationNotFound (path : string)
| IndexError
| FileNotFoundError (path : string)
| Poll (config : C).

Arguments Usage {C}. Arguments InvalidArgument {C}.
Arguments ConfigurationNotFound {C}. Arguments IndexError {C}.
Arguments FileNotFoundError {C}. Arguments Poll {C}.

(** [load_config] of the stop-limit script. *)
Definition load_config {C : Type} (disk : Disk C) (file_path : string)
    : Launch C :=
  if negb (os_path_exists disk file_path) then FileNotFoundError file_path
  else Poll (config_read disk file_path).

(** [ib_bridge_stp2.py], lines 222-235. *)
Definition stp2_main (disk : Disk Stp2.Config) (argv : list string)
    : Launch Stp2.Config :=
  if negb (Nat.eqb (List.length argv) 2) then Usage
  else
    match nth_error argv 1 with
    | None => IndexError
    | Some arg =>
        if negb (String.prefix "contract=" arg) then Usage
        else
          match nth_error (split_once "=" arg) 1 with
          | None => IndexError
          | Some config_file =>
              let path := config_file_path disk config_file in
              if negb (os_path_exists disk path) then ConfigurationNotFound path
              else load_config disk path
          end
    end.

(** [ib_bridge.py], lines 199-226. *)
Definition copy_main (disk : Disk Copy.Config) (argv : list string)
    : Launch Copy.Config :=
  if negb (Nat.eqb (List.length argv) 2) then Usage
  else
    match nth_error argv 1 with
    | None => IndexError
    | Some arg =>
        if negb (String.prefix "contract=" arg) then InvalidArgument
        else
          match nth_error (split_once "=" arg) 1 with
          | None => IndexError
          | Some config_file =>
              let path := config_file_path disk config_file in
              if negb (os_path_exists disk path) then ConfigurationNotFound path
              else Poll (config_read disk path)
          end
    end.

End Cli.

(** ** The cursor file as text *)

(** Lines 23-41 of the stop-limit script at the level of the file's text:
    [file.write(str(last_id))] and [int(file.read().strip())]. *)
Module CursorText.







End CursorText.

(** ** Vocabulary of the statements *)

(** The cursor a polling turn starts from: the value
    [read_last_processed_id] returns for the file as it stands. *)
Definition cursor_value (w : World) : Z :=
  match last_processed_file w with
  | Holds id => id
  | Unparsable => 0
  | Missing => 0
  end.

(** A reading from which the price lookup can return. *)
Definition usable (t : Ticker) : bool :=
  Py.gt (last t) 0 || Py.gt (close t) 0.

(** The world after [n] further market-data requests. *)
Fixpoint after_requests (n : nat) (w : World) : World :=
  match n with
  | O => w
  | S m => after_requests m (tick_mktdata w)
  end.

(** The events of [n] attempts that found no usable reading, the first of
    them being attempt number [first] of the [for] loop. *)
Fixpoint failed_attempts (c : Contract) (first n : nat)
    : list (Event Stp2.Order) :=
  match n with
  | O => []
  | S m =>
      [ReqMktData c; Sleep 2;
       Print (RetryFetchingPrice (first + 1) Stp2.retry_count (symbol c))]
      ++ failed_attempts c (S first) m
  end.

(** The ideas whose bracket went out: those being processed when a leg
    with [transmit = True] was handed to the broker. *)
Fixpoint dispatched_from (current : option Z) (evs : list (Event Stp2.Order))
    : list Z :=
  match evs with
  | [] => []
  | Print (ProcessingTradeID id _) :: r => dispatched_from (Some id) r
  | PlaceOrder _ o :: r =>
      match current with
      | Some id =>
          if Stp2.transmit o then id :: dispatched_from current r
          else dispatched_from current r
      | None => dispatched_from current r
      end
  | _ :: r => dispatched_from current r
  end.

Definition dispatched (evs : list (Event Stp2.Order)) : list Z :=
  dispatched_from None evs.

(** The largest of [z] and the members of [l]. *)
Definition maximum (z : Z) (l : list Z) : Z := fold_left Z.max l z.

(** The batch a polling turn fetches: what the feed answers to the next
    request, nothing on a transport error. *)
Definition fetched (env : Env) (w : World) : list Trade :=
  match feed env (n_feed w) with
  | Some ideas => ideas
  | None => []
  end.

(** What a polling turn of the stop-limit script does before it looks at
    the batch: read the cursor, announce the poll, query the feed. *)
Definition stp2_prelude (env : Env) (w : World) : list (Event Stp2.Order) :=
  [Print match last_processed_file w with
         | Holds id => LastProcessedIdRead id
         | Unparsable => InvalidLastProcessedId
         | Missing => NoLastProcessedIdFile
         end;
   Print Polling; HttpGet]
  ++ match feed env (n_feed w) with
     | Some _ => []
     | None => [Print ErrorFetchingTradeIdeas]
     end.

(** What a polling turn of the limit-entry script does before it looks at
    the batch. *)
Definition copy_prelude (env : Env) (w : World) : list (Event Copy.Order) :=
  [Print Polling; HttpGet]
  ++ match feed env (n_feed w) with
     | Some _ => []
     | None => [Print ErrorFetchingTradeIdeas]
     end.

(** Ascending by identifier. *)
Definition ID_le (t u : Trade) : Prop := ID t <= ID u.

(** A computation that leaves the cursor file alone and hands no idea to
    [process_trade_idea]. *)
Definition quiet {O A : Type} (m : M World (Event O) Exn A) : Prop :=
  forall w,
    last_processed_file (world (m w)) = last_processed_file w /\
    written (events (m w)) = [] /\
    processed (events (m w)) = [].

(** Open orders of one side on a contract, as [check_order_limit] counts. *)
Definition counts_as (side : string) (contract : Contract) (o : OpenOrder) : bool :=
  is_Order o
  && (String.eqb (open_symbol o) (symbol contract)
      && String.eqb (open_expiry o) (lastTradeDateOrContractMonth contract))
  && String.eqb (open_action o) side.

Definition open_count (side : string) (contract : Contract)
    (open_orders : list OpenOrder) : Z :=
  Z.of_nat (List.length (filter (counts_as side contract) open_orders)).

(** The contract [process_trade_idea] builds from the configuration. *)
Definition stp2_contract (config : Stp2.Config) : Contract :=
  {| symbol := Stp2.CONTRACT_symbol config;
     lastTradeDateOrContractMonth := Stp2.CONTRACT_expiry config;
     exchange := Stp2.CONTRACT_exchange config;
     currency := Stp2.CONTRACT_currency config |}.

(** [trade.get('BuySell', '')] and [trade.get('source', 'Unknown')] *)
Definition action_code (trade : Trade) : string :=
  match BuySell trade with Some s => s | None => "" end.

Definition source_tag (trade : Trade) : string :=
  match source trade with Some s => s | None => "Unknown" end.

(** The contract the limit-entry script builds for an idea. *)
Definition copy_contract (trade : Trade) (config : Copy.Config) : Contract :=
  {| symbol := match Py.lookup Copy.symbol_map (Symbol trade) with
               | Some s => s
               | None => Symbol trade
               end;
     lastTradeDateOrContractMonth := Copy.CONTRACT_expiry config;
     exchange := Copy.CONTRACT_exchange config;
     currency := Copy.CONTRACT_currency config |}.

(** The three legs [bracket_order] builds when the counter stands at [n]. *)
Definition stp2_legs (action : string) (quantity : Z)
    (stop_price limit_price stop_loss_price take_profit_price : Q) (n : Z)
    : list Stp2.Order :=
  [ {| Stp2.kind := StopLimitOrder stop_price limit_price;
       Stp2.action := action; Stp2.totalQuantity := quantity;
       Stp2.orderId := n + 1; Stp2.parentId := None;
       Stp2.transmit := false |};
    {| Stp2.kind := LimitOrder take_profit_price;
       Stp2.action := Stp2.opposite action; Stp2.totalQuantity := quantity;
       Stp2.orderId := n + 1 + 1; Stp2.parentId := Some (n + 1);
       Stp2.transmit := false |};
    {| Stp2.kind := StopOrder stop_loss_price;
       Stp2.action := Stp2.opposite action; Stp2.totalQuantity := quantity;
       Stp2.orderId := n + 1 + 1 + 1; Stp2.parentId := Some (n + 1);
       Stp2.transmit := true |} ].

(** The events of [for order in bracket_orders: print(...); placeOrder(...)]. *)
Definition placing (c : Contract) (orders : list Stp2.Order)
    : list (Event Stp2.Order) :=
  flat_map (fun o => [Print (PlacingOrder o); PlaceOrder c o]) orders.


(** An id the limit-entry script takes for new: any id while it has no
    cursor, an id beyond the cursor otherwise. *)
Definition above (last_processed_id : option Z) (id : Z) : Prop :=
  match last_processed_id with
  | None => True
  | Some c => c < id
  end.

(** The cursor [v] is not behind the cursor [last_processed_id]. *)
Definition extends (last_processed_id v : option Z) : Prop :=
  match last_processed_id with
  | None => True
  | Some c => exists c', v = Some c' /\ c <= c'
  end.

(** Every id of [l] is at or below the cursor [v]. *)
Definition covers (v : option Z) (l : list Z) : Prop :=
  Forall (fun id => exists c, v = Some c /\ id <= c) l.

(** The loop of the stop-limit script gets past idea [t]: processing it
    returns, its id is written to the cursor file, and the loop goes on
    with the rest of the batch from that id. *)
Definition stp2_advances_past (env : Env) (config : Stp2.Config) (t : Trade)
    (rest : list Trade) (c : Z) (w : World) : Prop :=
  exists w1 evs,
    Stp2.process_trade_idea env
      (Stp2.set_source t (Stp2.ORDER_source config)) config w
    = Returned tt w1 evs /\
    Stp2.for_trades env config (t :: rest) c w
    = after (Print (ProcessingNewTradeID (ID t)) :: evs
             ++ [WriteFile (ID t); Print (LastProcessedIdUpdated (ID t))])
        (Stp2.for_trades env config rest (ID t)
           (set_last_processed_file (Holds (ID t)) w1)).

(** The same for the loop of the limit-entry script. *)
Definition copy_advances_past (env : Env) (config : Copy.Config) (t : Trade)
    (rest : list Trade) (last_processed_id : option Z) (w : World) : Prop :=
  exists w1 evs,
    Copy.process_trade_idea env t config w = Returned tt w1 evs /\
    Copy.for_trades env config (t :: rest) last_processed_id w
    = after (evs ++ [WriteFile (ID t)])
        (Copy.for_trades env config rest (Some (ID t))
           (set_last_processed_file (Holds (ID t)) w1)).

(** The open-order ceiling of the limit-entry script is reached for the
    contract [c] in the world [w]. *)
Definition at_ceiling (env : Env) (c : Contract) (w : World) : Prop :=
  15 <= open_count "BUY" c (reqAllOpenOrders env (n_openorders w)) \/
  15 <= open_count "SELL" c (reqAllOpenOrders env (n_openorders w)).

(** The order ids of the legs handed to the broker, in submission order. *)
Definition order_ids (evs : list (Event Stp2.Order)) : list Z :=
  map Stp2.orderId (placed evs).

(** The ids drawn from the session's request-id sequence, in order. *)
Fixpoint seeds {O : Type} (evs : list (Event O)) : list Z :=
  match evs with
  | [] => []
  | GetReqId id :: r => id :: seeds r
  | _ :: r => seeds r
  end.

(** How the order-id counter and the order ids of a run relate: the ids
    ascend strictly; with the counter at [n] before, no seed is drawn, the
    ids lie above [n] and the counter ends at or above them; with the
    counter unset before, either nothing is placed and it stays unset, or
    one seed [s] is drawn, the ids lie above it and the counter ends at or
    above them. *)
Definition allocates (c : option Z) (ids sd : list Z) (c' : option Z) : Prop :=
  StronglySorted Z.lt ids /\
  match c with
  | Some n =>
      sd = [] /\ Forall (Z.lt n) ids /\
      exists n', c' = Some n' /\ n <= n' /\ Forall (fun id => id <= n') ids
  | None =>
      (ids = [] /\ sd = [] /\ c' = None) \/
      (exists s n', sd = [s] /\ Forall (Z.lt s) ids /\
         c' = Some n' /\ s <= n' /\ Forall (fun id => id <= n') ids)
  end.



(** Two worlds that differ at most in what the cursor file holds. *)
Definition same_but_file (w w' : World) : Prop :=
  ORDER_ID_COUNTER w = ORDER_ID_COUNTER w' /\
  reqIdSeq w = reqIdSeq w' /\
  n_feed w = n_feed w' /\
  n_qualify w = n_qualify w' /\
  n_mktdata w = n_mktdata w' /\
  n_openorders w = n_openorders w'.

(** Two runs with the same outcome and the same events, that end in worlds
    differing at most in the cursor file. *)
Definition agree {O A : Type} (r r' : Run World (Event O) Exn A) : Prop :=
  match r, r' with
  | Returned a w e, Returned a' w' e' => a = a' /\ e = e' /\ same_but_file w w'
  | Raised x w e, Raised x' w' e' => x = x' /\ e = e' /\ same_but_file w w'
  | _, _ => False
  end.

(** A computation that does not look at the cursor file. *)
Definition file_blind {O A : Type} (m : M World (Event O) Exn A) : Prop :=
  forall w w', same_but_file w w' -> agree (m w) (m w').

(** ** Sample data *)

Definition idea (id : Z) (code : string) : Trade :=
  {| ID := id; Symbol := "SPX"; BuySell := Some code; source := None |}.

Definition MES : Contract :=
  {| symbol := "MES"; lastTradeDateOrContractMonth := "202503";
     exchange := "CME"; currency := "USD" |}.

(** A session in which every contract qualifies, every reading is [t], the
    feed always returns [batch] and [open_orders] are open. *)
Definition session (t : Ticker) (batch : list Trade)
    (open_orders : list OpenOrder) : Env :=
  {| connect_ok := true;
     feed := fun _ => Some batch;
     qualifyContracts := fun _ c => [c];
     reqMktData := fun _ _ => t;
     reqAllOpenOrders := fun _ => open_orders |}.

Definition quote_5000 : Ticker := {| last := 5000; close := 4990 |}.
Definition no_quote : Ticker := {| last := 0; close := 0 |}.

Definition fresh_world : World :=
  {| ORDER_ID_COUNTER := None; last_processed_file := Missing; reqIdSeq := 100;
     n_feed := 0; n_qualify := 0; n_mktdata := 0; n_openorders := 0 |}.

Definition stp2_config (stop_loss_offset : Q) : Stp2.Config :=
  {| Stp2.ORDER_quantity := 1;
     Stp2.ORDER_stop_offset := 2;
     Stp2.ORDER_limit_offset := 3;
     Stp2.ORDER_stop_loss_offset := stop_loss_offset;
     Stp2.ORDER_take_profit_offset := 15;
     Stp2.ORDER_source := "cashbox";
     Stp2.CONTRACT_symbol := "MES";
     Stp2.CONTRACT_expiry := "202503";
     Stp2.CONTRACT_exchange := "CME";
     Stp2.CONTRACT_currency := "USD" |}.

Definition copy_config : Copy.Config :=
  {| Copy.ORDER_entry_price_offset := 2;
     Copy.ORDER_stop_loss_price := 10;
     Copy.ORDER_limit_price := 15;
     Copy.CONTRACT_expiry := "202503";
     Copy.CONTRACT_exchange := "CME";
     Copy.CONTRACT_currency := "USD" |}.


(** * Properties *)

(** ** Runs and event lists *)

Section RunFacts.

Context {W Ev X : Type}.

Lemma after_nil {A} (r : Run W Ev X A) : after [] r = r.
Proof. destruct r; reflexivity. Qed.

Lemma after_after {A} (e1 e2 : list Ev) (r : Run W Ev X A) :
  after e1 (after e2 r) = after (e1 ++ e2) r.
Proof. destruct r; simpl; now rewrite app_assoc. Qed.

Lemma events_after {A} (e : list Ev) (r : Run W Ev X A) :
  events (after e r) = e ++ events r.
Proof. destruct r; reflexivity. Qed.

Lemma world_after {A} (e : list Ev) (r : Run W Ev X A) :
  world (after e r) = world r.
Proof. destruct r; reflexivity. Qed.

Lemma returned_after {A} (e : list Ev) (r : Run W Ev X A) :
  returned (after e r) = returned r.
Proof. destruct r; reflexivity. Qed.

End RunFacts.

Lemma placed_app {O} (a b : list (Event O)) :
  placed (a ++ b) = placed a ++ placed b.
Proof.
  induction a as [|e a IH]; [reflexivity|].
  destruct e; simpl; auto. now rewrite IH.
Qed.

Lemma processed_app {O} (a b : list (Event O)) :
  processed (a ++ b) = processed a ++ processed b.
Proof.
  induction a as [|e a IH]; [reflexivity|].
  destruct e as [m| | | | | | | |]; simpl; auto.
  destruct m; simpl; auto. now rewrite IH.
Qed.

Lemma written_app {O} (a b : list (Event O)) :
  written (a ++ b) = written a ++ written b.
Proof.
  induction a as [|e a IH]; [reflexivity|].
  destruct e; simpl; auto. now rewrite IH.
Qed.

Lemma gt_zero_iff (x : Q) : Py.gt x 0 = true <-> (0 < x)%Q.
Proof.
  unfold Py.gt. rewrite negb_true_iff, <- not_true_iff_false, Qle_bool_iff.
  split; [apply Qnot_le_lt | apply Qlt_not_le].
Qed.

Lemma gt_zero_false_iff (x : Q) : Py.gt x 0 = false <-> ~ (0 < x)%Q.
Proof.
  rewrite <- gt_zero_iff. destruct (Py.gt x 0); split; congruence.
Qed.

(** ** Action codes *)



(** The dictionary lookup of the stop-limit script, spelled out. *)
Lemma stp2_resolve_action_eq (trade : Trade) :
  Stp2.resolve_action trade =
  let action :=
    Py.upper (Py.strip (match BuySell trade with Some s => s | None => "" end)) in
  if String.eqb action "L" then Some "BUY"
  else if String.eqb action "S" then Some "SELL"
  else None.
Proof.
  unfold Stp2.resolve_action, Py.mem, Stp2.action_map, Py.lookup. cbv zeta.
  destruct (String.eqb _ "L"); [reflexivity|].
  destruct (String.eqb _ "S"); reflexivity.
Qed.

Lemma stp2_resolve_action_sides (trade : Trade) (a : string) :
  Stp2.resolve_action trade = Some a -> a = "BUY" \/ a = "SELL".
Proof.
  rewrite stp2_resolve_action_eq. cbv zeta.
  destruct (String.eqb _ "L"); [intros [= <-]; now left|].
  destruct (String.eqb _ "S"); [intros [= <-]; now right | discriminate].
Qed.

Lemma copy_resolve_action_sides (code a : string) :
  Copy.resolve_action code = Some a -> a = "BUY" \/ a = "SELL".
Proof.
  unfold Copy.resolve_action.
  destruct (String.eqb code "S"); [intros [= <-]; now right|].
  destruct (String.eqb code "B"); [intros [= <-]; now left | discriminate].
Qed.

(** ** Running the primitives *)

Section BindFacts.

Context {W Ev X : Type}.

Lemma bind_ret {A B} (a : A) (k : A -> M W Ev X B) (w : W) :
  bind (ret a) k w = k a w.
Proof. unfold bind, ret. apply after_nil. Qed.

Lemma bind_raise {A B} (x : X) (k : A -> M W Ev X B) (w : W) :
  bind (raise x) k w = Raised x w [].
Proof. reflexivity. Qed.

Lemma bind_gets {A B} (f : W -> A) (k : A -> M W Ev X B) (w : W) :
  bind (gets f) k w = k (f w) w.
Proof. unfold bind, gets. apply after_nil. Qed.

Lemma bind_modify {B} (f : W -> W) (k : unit -> M W Ev X B) (w : W) :
  bind (modify f) k w = k tt (f w).
Proof. unfold bind, modify. apply after_nil. Qed.

Lemma bind_emit {B} (e : Ev) (k : unit -> M W Ev X B) (w : W) :
  bind (emit e) k w = after [e] (k tt w).
Proof. reflexivity. Qed.

Lemma bind_bind {A B C} (m : M W Ev X A) (f : A -> M W Ev X B)
    (g : B -> M W Ev X C) (w : W) :
  bind (bind m f) g w = bind m (fun a => bind (f a) g) w.
Proof.
  unfold bind. destruct (m w) as [a w1 e1|x w1 e1]; [|reflexivity].
  destruct (f a w1) as [b w2 e2|y w2 e2]; simpl; [|reflexivity].
  now rewrite after_after.
Qed.

End BindFacts.

Ltac run_head :=
  repeat (rewrite ?bind_bind, ?bind_gets, ?bind_modify, ?bind_emit, ?bind_ret,
            ?bind_raise, ?after_after, ?after_nil; cbn beta iota).

(** ** Computations that leave the cursor alone *)

Section Quiet.

Context {O : Type}.
Notation "'Comp' A" := (M World (Event O) Exn A) (at level 10, only parsing).

Lemma quiet_ret {A} (a : A) : quiet (ret a : Comp A).
Proof. intro w. now cbn. Qed.

Lemma quiet_raise {A} (x : Exn) : quiet (raise x : Comp A).
Proof. intro w. now cbn. Qed.

Lemma quiet_gets {A} (f : World -> A) : quiet (gets f : Comp A).
Proof. intro w. now cbn. Qed.

Lemma quiet_modify (f : World -> World) :
  (forall w, last_processed_file (f w) = last_processed_file w) ->
  quiet (modify f : Comp unit).
Proof. intros H w. cbn. now rewrite H. Qed.

Lemma quiet_emit (e : Event O) :
  written [e] = [] -> processed [e] = [] -> quiet (emit e : Comp unit).
Proof. intros H1 H2 w. now cbn. Qed.

Lemma quiet_bind {A B} (m : Comp A) (k : A -> Comp B) :
  quiet m -> (forall a, quiet (k a)) -> quiet (bind m k).
Proof.
  intros Hm Hk w. unfold bind.
  destruct (Hm w) as (Hf & Hw & Hp).
  destruct (m w) as [a w1 e1|x w1 e1]; cbn in *; [|auto].
  destruct (Hk a w1) as (Hf' & Hw' & Hp').
  rewrite world_after, events_after, written_app, processed_app.
  rewrite Hf', Hf, Hw, Hw', Hp, Hp'. auto.
Qed.

End Quiet.

Create HintDb quiet.

Ltac quiet_step :=
  first
    [ apply quiet_ret
    | apply quiet_raise
    | apply quiet_gets
    | apply quiet_modify; intro; reflexivity
    | apply quiet_emit; reflexivity
    | apply quiet_bind; [|intro]
    | match goal with
      | |- quiet (match ?x with _ => _ end) => destruct x
      end
    | assumption
    | solve [auto with quiet] ].

Ltac quiet_tac := repeat quiet_step.

Lemma stp2_fetch_attempts_quiet env c range :
  quiet (Stp2.fetch_attempts env c range).
Proof.
  induction range as [|attempt rest IH]; cbn [Stp2.fetch_attempts].
  - quiet_tac.
  - unfold Stp2.ib_reqMktData, Stp2.sleep, Stp2.print. quiet_tac.
Qed.

Lemma stp2_place_all_quiet c orders : quiet (Stp2.place_all c orders).
Proof.
  induction orders as [|o rest IH]; cbn [Stp2.place_all].
  - quiet_tac.
  - unfold Stp2.ib_placeOrder, Stp2.print. quiet_tac.
Qed.

Lemma stp2_bracket_order_quiet a q p1 p2 p3 p4 :
  quiet (Stp2.bracket_order a q p1 p2 p3 p4).
Proof.
  unfold Stp2.bracket_order, Stp2.get_next_order_id. quiet_tac.
Qed.

Lemma stp2_initialize_order_id_quiet : quiet Stp2.initialize_order_id.
Proof.
  unfold Stp2.initialize_order_id, Stp2.ib_client_getReqId. quiet_tac.
Qed.

#[local] Hint Resolve stp2_fetch_attempts_quiet stp2_place_all_quiet
  stp2_bracket_order_quiet stp2_initialize_order_id_quiet : quiet.

(** ** One idea in the stop-limit script *)

Lemma stp2_get_next_order_id_run w n :
  ORDER_ID_COUNTER w = Some n ->
  Stp2.get_next_order_id w =
  Returned (n + 1) (set_ORDER_ID_COUNTER (Some (n + 1)) w) [].
Proof.
  intro H. unfold Stp2.get_next_order_id. run_head. rewrite H. run_head.
  reflexivity.
Qed.

Lemma stp2_bracket_order_run a q p1 p2 p3 p4 w n :
  ORDER_ID_COUNTER w = Some n ->
  Stp2.bracket_order a q p1 p2 p3 p4 w =
  Returned (stp2_legs a q p1 p2 p3 p4 n)
    (set_ORDER_ID_COUNTER (Some (n + 1 + 1 + 1)) w) [].
Proof.
  intro H. unfold Stp2.bracket_order.
  unfold bind at 1. rewrite (stp2_get_next_order_id_run _ _ H).
  rewrite after_nil.
  unfold bind at 1. erewrite stp2_get_next_order_id_run by reflexivity.
  rewrite after_nil.
  unfold bind at 1. erewrite stp2_get_next_order_id_run by reflexivity.
  rewrite after_nil. reflexivity.
Qed.

Lemma stp2_process_invalid_action env t cfg w :
  Stp2.resolve_action t = None ->
  Stp2.process_trade_idea env t cfg w =
  Returned tt w
    [Print (ProcessingTradeID (ID t) (source_tag t));
     Print (InvalidAction (Py.upper (Py.strip (action_code t))) (ID t))].
Proof.
  intro H. unfold Stp2.process_trade_idea, Stp2.print. rewrite H. run_head.
  reflexivity.
Qed.

Lemma stp2_process_unqualified env t cfg w a :
  Stp2.resolve_action t = Some a ->
  qualifyContracts env (n_qualify w) (stp2_contract cfg) = [] ->
  Stp2.process_trade_idea env t cfg w =
  Returned tt (tick_qualify w)
    [Print (ProcessingTradeID (ID t) (source_tag t));
     Print (MappedAction (ID t) a);
     QualifyContracts (stp2_contract cfg);
     Print (QualificationFailed (ID t))].
Proof.
  intros H Hq. unfold Stp2.process_trade_idea, Stp2.print. rewrite H.
  unfold Stp2.ib_qualifyContracts. run_head.
  fold (stp2_contract cfg). rewrite Hq. run_head. reflexivity.
Qed.




Lemma stp2_order_prices_side a x o1 o2 o3 o4 :
  a = "BUY" \/ a = "SELL" -> exists p, Stp2.order_prices a x o1 o2 o3 o4 = Some p.
Proof. intros [-> | ->]; eexists; reflexivity. Qed.


(** Processing an idea announces it, then leaves the cursor alone. *)
Lemma stp2_process_shape env t cfg w :
  let r := Stp2.process_trade_idea env t cfg w in
  exists evs,
    events r = Print (ProcessingTradeID (ID t) (source_tag t)) :: evs /\
    processed evs = [] /\
    written evs = [] /\
    last_processed_file (world r) = last_processed_file w.
Proof.
  intro r.
  assert (Hr : exists m,
             r = after [Print (ProcessingTradeID (ID t) (source_tag t))] (m w)
             /\ quiet m).
  { unfold r, Stp2.process_trade_idea. unfold Stp2.print at 1.
    rewrite bind_emit. eexists. split; [reflexivity|].
    unfold Stp2.print, Stp2.ib_qualifyContracts, Stp2.fetch_latest_price,
      Stp2.sleep.
    quiet_tac. }
  destruct Hr as (m & -> & Hq).
  destruct (Hq w) as (Hf & Hw & Hp).
  exists (events (m w)). rewrite events_after, world_after. auto.
Qed.

Lemma stp2_process_events env t cfg w :
  let r := Stp2.process_trade_idea env t cfg w in
  processed (events r) = [ID t] /\
  written (events r) = [] /\
  last_processed_file (world r) = last_processed_file w.
Proof.
  intro r. destruct (stp2_process_shape env t cfg w) as (evs & E & Hp & Hw & Hf).
  fold r in E, Hf. rewrite E. cbn [processed written]. rewrite Hp, Hw. auto.
Qed.

(** ** The stable sort *)

Lemma insert_by_ID_perm t l : Permutation (insert_by_ID t l) (t :: l).
Proof.
  induction l as [|u r IH]; cbn [insert_by_ID]; [reflexivity|].
  destruct (ID t <=? ID u); [reflexivity|].
  rewrite IH. apply perm_swap.
Qed.

Lemma sorted_perm l : Permutation (sorted l) l.
Proof.
  induction l as [|t r IH]; cbn [sorted]; [reflexivity|].
  rewrite insert_by_ID_perm. now constructor.
Qed.

Lemma insert_by_ID_sorted t l :
  StronglySorted ID_le l -> StronglySorted ID_le (insert_by_ID t l).
Proof.
  induction 1 as [|u r Hs IH Hall]; cbn [insert_by_ID].
  - repeat constructor.
  - destruct (Z.leb_spec (ID t) (ID u)) as [Hle|Hlt].
    + constructor; [now constructor|].
      constructor; [exact Hle|].
      eapply Forall_impl; [|exact Hall]. unfold ID_le. intros; lia.
    + constructor; [exact IH|].
      eapply Permutation_Forall; [symmetry; apply insert_by_ID_perm|].
      constructor; [unfold ID_le; lia | exact Hall].
Qed.

Lemma sorted_sorted l : StronglySorted ID_le (sorted l).
Proof.
  induction l as [|t r IH]; cbn [sorted]; [constructor|].
  now apply insert_by_ID_sorted.
Qed.

Lemma sorted_In t l : In t (sorted l) <-> In t l.
Proof.
  split; apply Permutation_in; [apply sorted_perm | symmetry; apply sorted_perm].
Qed.

(** ** The largest identifier *)

Lemma maximum_ge z l : z <= maximum z l.
Proof.
  unfold maximum. revert z. induction l as [|x l IH]; intro z; cbn; [lia|].
  specialize (IH (Z.max z x)). lia.
Qed.

Lemma maximum_upper z l x : In x l -> x <= maximum z l.
Proof.
  unfold maximum. revert z. induction l as [|y l IH]; intros z H; [easy|].
  destruct H as [<-|H]; cbn.
  - pose proof (maximum_ge (Z.max z y) l). unfold maximum in *. lia.
  - now apply IH.
Qed.

Lemma maximum_attained z l : maximum z l = z \/ In (maximum z l) l.
Proof.
  unfold maximum. revert z. induction l as [|y l IH]; intro z; cbn; [now left|].
  destruct (IH (Z.max z y)) as [H|H]; [|now right; right].
  rewrite H. destruct (Z.max_spec z y) as [[_ ->]|[_ ->]]; auto.
Qed.

(** ** The loop over a batch *)

Lemma stp2_for_trades_old env cfg t rest c w :
  ID t <= c ->
  Stp2.for_trades env cfg (t :: rest) c w =
  after [Print (IgnoringTradeID (ID t))] (Stp2.for_trades env cfg rest c w).
Proof.
  intro H. cbn [Stp2.for_trades].
  replace (ID t >? c) with false by (symmetry; rewrite Z.gtb_ltb; apply Z.ltb_ge; lia).
  unfold Stp2.print. now run_head.
Qed.

Lemma stp2_for_trades_new env cfg t rest c w :
  c < ID t ->
  Stp2.for_trades env cfg (t :: rest) c w =
  match Stp2.process_trade_idea env
          (Stp2.set_source t (Stp2.ORDER_source cfg)) cfg w with
  | Returned _ w1 evs =>
      after (Print (ProcessingNewTradeID (ID t)) :: evs
             ++ [WriteFile (ID t); Print (LastProcessedIdUpdated (ID t))])
        (Stp2.for_trades env cfg rest (ID t)
           (set_last_processed_file (Holds (ID t)) w1))
  | Raised x w1 evs => Raised x w1 (Print (ProcessingNewTradeID (ID t)) :: evs)
  end.
Proof.
  intro H. cbn [Stp2.for_trades].
  replace (ID t >? c) with true by (symmetry; rewrite Z.gtb_ltb; apply Z.ltb_lt; lia).
  unfold Stp2.write_last_processed_id, Stp2.print. run_head.
  unfold bind at 1.
  destruct (Stp2.process_trade_idea env _ cfg w) as [[] w1 evs|x w1 evs];
    [|reflexivity].
  run_head. now rewrite <- app_assoc.
Qed.

Lemma cursor_value_written id w :
  cursor_value (set_last_processed_file (Holds id) w) = id.
Proof. reflexivity. Qed.

Lemma StronglySorted_lt_cons x l :
  StronglySorted Z.lt l -> Forall (Z.lt x) l -> StronglySorted Z.lt (x :: l).
Proof. now constructor. Qed.

Lemma stp2_for_trades_inv env cfg l : forall c w,
  cursor_value w = c ->
  let r := Stp2.for_trades env cfg l c w in
  StronglySorted Z.lt (processed (events r)) /\
  Forall (Z.lt c) (processed (events r)) /\
  Forall (fun id => In id (map ID l)) (processed (events r)) /\
  c <= cursor_value (world r) /\
  (returned r = true ->
     Forall (fun id => id <= cursor_value (world r)) (processed (events r)) /\
     cursor_value (world r) = maximum c (map ID l)).
Proof.
  induction l as [|t rest IH]; intros c w Hc; cbv zeta.
  - cbn. repeat split; try constructor; lia.
  - destruct (Z.le_gt_cases (ID t) c) as [Hle|Hgt].
    + rewrite stp2_for_trades_old by exact Hle.
      rewrite events_after, world_after, returned_after, processed_app.
      cbn [processed app map maximum fold_left].
      destruct (IH c w Hc) as (H1 & H2 & H3 & H4 & H5).
      repeat split; auto.
      * eapply Forall_impl; [|exact H3]. intros; now right.
      * now apply H5.
      * replace (Z.max c (ID t)) with c by lia. now apply H5.
    + rewrite stp2_for_trades_new by exact Hgt.
      pose proof (stp2_process_events env
                    (Stp2.set_source t (Stp2.ORDER_source cfg)) cfg w)
        as (Hp & _ & Hf).
      destruct (Stp2.process_trade_idea env _ cfg w) as [[] w1 evs|x w1 evs];
        cbn [events world] in Hp, Hf.
      * rewrite events_after, world_after, returned_after.
        change (Print (ProcessingNewTradeID (ID t)) :: evs ++ ?l)
          with ([Print (ProcessingNewTradeID (ID t))] ++ evs ++ l).
        rewrite !processed_app, Hp. cbn [processed app map ID Stp2.set_source].
        destruct (IH (ID t) (set_last_processed_file (Holds (ID t)) w1)
                    (cursor_value_written _ _)) as (H1 & H2 & H3 & H4 & H5).
        cbv zeta in *.
        repeat split.
        -- now constructor.
        -- constructor; [lia|]. eapply Forall_impl; [|exact H2].
           cbn beta. intros; lia.
        -- constructor; [now left|].
           eapply Forall_impl; [|exact H3]. intros; now right.
        -- lia.
        -- constructor; [lia|]. now apply H5.
        -- cbn [maximum fold_left]. replace (Z.max c (ID t)) with (ID t) by lia.
           now apply H5.
      * cbn [events world returned processed].
        rewrite Hp. unfold cursor_value in *. rewrite Hf.
        repeat split; try discriminate; repeat constructor; cbn; auto; lia.
Qed.

Lemma stp2_for_trades_complete env cfg l :
  StronglySorted ID_le l ->
  forall c w,
    returned (Stp2.for_trades env cfg l c w) = true ->
    forall t, In t l -> c < ID t ->
      In (ID t) (processed (events (Stp2.for_trades env cfg l c w))).
Proof.
  induction 1 as [|t0 rest Hs IH Hall]; intros c w Hr t Hin Hlt; [easy|].
  destruct (Z.le_gt_cases (ID t0) c) as [Hle|Hgt].
  - rewrite stp2_for_trades_old in * by exact Hle.
    rewrite returned_after in Hr.
    rewrite events_after, processed_app. cbn [processed app].
    destruct Hin as [<-|Hin]; [lia|]. now apply IH.
  - rewrite stp2_for_trades_new in * by exact Hgt.
    pose proof (stp2_process_events env
                  (Stp2.set_source t0 (Stp2.ORDER_source cfg)) cfg w)
      as (Hp & _ & _).
    destruct (Stp2.process_trade_idea env _ cfg w) as [[] w1 evs|x w1 evs];
      cbn [events] in Hp; [|discriminate].
    rewrite returned_after in Hr. rewrite events_after.
    change (Print (ProcessingNewTradeID (ID t0)) :: evs ++ ?l)
      with ([Print (ProcessingNewTradeID (ID t0))] ++ evs ++ l).
    rewrite !processed_app, Hp. cbn [processed app ID Stp2.set_source].
    destruct Hin as [<-|Hin]; [now left|].
    rewrite Forall_forall in Hall. specialize (Hall t Hin). unfold ID_le in Hall.
    destruct (Z.eq_dec (ID t) (ID t0)) as [->|Hne]; [now left|].
    right. apply IH; [exact Hr | exact Hin | lia].
Qed.

Lemma stp2_for_trades_all_old env cfg l c w :
  Forall (fun t => ID t <= c) l ->
  Stp2.for_trades env cfg l c w =
  Returned c w (map (fun t => Print (IgnoringTradeID (ID t))) l).
Proof.
  induction 1 as [|t rest Ht Hall IH]; [reflexivity|].
  rewrite stp2_for_trades_old by exact Ht. now rewrite IH.
Qed.

(** ** A polling turn *)

Lemma stp2_poll_cycle_eq env cfg w :
  Stp2.poll_cycle env cfg w =
  after (stp2_prelude env w)
    (if is_nonempty (fetched env w) then
       match Stp2.for_trades env cfg (sorted (fetched env w))
               (cursor_value w) (tick_feed w) with
       | Returned _ w1 evs => Returned tt w1 (evs ++ [Sleep 30])
       | Raised x w1 evs => Raised x w1 evs
       end
     else Returned tt (tick_feed w) [Print NoNewTradeIdeas; Sleep 30]).
Proof.
  unfold Stp2.poll_cycle, Stp2.read_last_processed_id, Stp2.fetch_trade_ideas,
    Stp2.sleep, Stp2.print, stp2_prelude, fetched, cursor_value.
  run_head.
  destruct (last_processed_file w); run_head;
    (destruct (feed env (n_feed w)) as [ideas|]; run_head;
     [ destruct (is_nonempty ideas); run_head;
       [ unfold bind;
         destruct (Stp2.for_trades env cfg (sorted ideas) _ (tick_feed w));
         cbn; rewrite ?app_nil_r; reflexivity
       | reflexivity ]
     | reflexivity ]).
Qed.

Lemma stp2_prelude_processed env w : processed (stp2_prelude env w) = [].
Proof.
  unfold stp2_prelude.
  destruct (last_processed_file w), (feed env (n_feed w)); reflexivity.
Qed.

Lemma stp2_prelude_placed env w : placed (stp2_prelude env w) = [].
Proof.
  unfold stp2_prelude.
  destruct (last_processed_file w), (feed env (n_feed w)); reflexivity.
Qed.

Lemma stp2_poll_cycle_inv env cfg w :
  let r := Stp2.poll_cycle env cfg w in
  StronglySorted Z.lt (processed (events r)) /\
  Forall (Z.lt (cursor_value w)) (processed (events r)) /\
  Forall (fun id => In id (map ID (fetched env w))) (processed (events r)) /\
  cursor_value w <= cursor_value (world r) /\
  (returned r = true ->
     Forall (fun id => id <= cursor_value (world r)) (processed (events r)) /\
     cursor_value (world r) = maximum (cursor_value w) (map ID (sorted (fetched env w)))).
Proof.
  cbv zeta. rewrite stp2_poll_cycle_eq.
  rewrite events_after, world_after, returned_after, processed_app,
    stp2_prelude_processed. cbn [app].
  destruct (fetched env w) as [|t0 b] eqn:Hb; cbn [is_nonempty].
  - cbn. change (cursor_value (tick_feed w)) with (cursor_value w).
    repeat split; try constructor; lia.
  - rewrite <- Hb.
    destruct (stp2_for_trades_inv env cfg (sorted (fetched env w))
                (cursor_value w) (tick_feed w) eq_refl)
      as (H1 & H2 & H3 & H4 & H5).
    cbv zeta in *.
    destruct (Stp2.for_trades env cfg (sorted (fetched env w)) _ (tick_feed w))
      as [c1 w1 evs|x w1 evs]; cbn [events world returned] in *.
    + rewrite processed_app. cbn [processed]. rewrite app_nil_r.
      repeat split; auto.
      * eapply Forall_impl; [|exact H3]. cbn beta. intros id Hid.
        apply in_map_iff in Hid as (t & <- & Ht). apply in_map.
        now apply sorted_In.
      * now apply H5.
      * now apply H5.
    + repeat split; auto; try discriminate.
      eapply Forall_impl; [|exact H3]. cbn beta. intros id Hid.
      apply in_map_iff in Hid as (t & <- & Ht). apply in_map.
      now apply sorted_In.
Qed.

(** ** The polling loop *)

Lemma StronglySorted_lt_app l1 l2 z :
  StronglySorted Z.lt l1 -> StronglySorted Z.lt l2 ->
  Forall (fun x => x <= z) l1 -> Forall (Z.lt z) l2 ->
  StronglySorted Z.lt (l1 ++ l2).
Proof.
  intros H1 H2 Hle Hlt. induction H1 as [|x l1 Hs IH Hall]; [exact H2|].
  cbn [app]. constructor.
  - apply IH. now inversion Hle.
  - apply Forall_app. split; [exact Hall|].
    inversion Hle; subst. eapply Forall_impl; [|exact Hlt]. cbn beta. intros; lia.
Qed.

Lemma stp2_while_True_inv env cfg turns : forall w,
  let r := Stp2.while_True turns (Stp2.poll_cycle env cfg) w in
  StronglySorted Z.lt (processed (events r)) /\
  Forall (Z.lt (cursor_value w)) (processed (events r)) /\
  cursor_value w <= cursor_value (world r).
Proof.
  induction turns as [|n IH]; intro w; cbv zeta.
  - cbn. repeat split; try constructor; lia.
  - cbn [Stp2.while_True]. unfold bind.
    destruct (stp2_poll_cycle_inv env cfg w) as (H1 & H2 & _ & H4 & H5).
    cbv zeta in *.
    destruct (Stp2.poll_cycle env cfg w) as [[] w1 evs|x w1 evs];
      cbn [events world returned] in *; [|auto].
    destruct (H5 eq_refl) as (H6 & _).
    destruct (IH w1) as (K1 & K2 & K3). cbv zeta in *.
    rewrite events_after, world_after, processed_app.
    repeat split.
    + now apply StronglySorted_lt_app with (cursor_value w1).
    + apply Forall_app. split; [exact H2|].
      eapply Forall_impl; [|exact K2]. cbn beta. intros; lia.
    + lia.
Qed.

(** ** When every price lookup succeeds *)




(** ** The bracket *)



(** Before the counter is seeded the allocator fails at once. *)
Lemma stp2_get_next_order_id_unseeded w :
  ORDER_ID_COUNTER w = None ->
  returned (Stp2.get_next_order_id w) = false.
Proof.
  intro H. unfold Stp2.get_next_order_id. run_head. now rewrite H.
Qed.

(** The limit-entry script writes the same linkage into the attributes
    [OrderId], [ParentId] and [Transmit], numbering the protective legs from
    the parent id it is given. *)
Lemma copy_bracket_order_linkage (parent_order_id : Z) (action : string)
    (quantity : Z) (entry_price stop_loss_offset limit_price_offset : Q)
    (w : World) :
  Copy.is_side action = true ->
  exists entry take_profit stop_loss,
    Copy.bracket_order parent_order_id action quantity entry_price
      stop_loss_offset limit_price_offset w
    = Returned [entry; take_profit; stop_loss] w [] /\
    Copy.ParentId take_profit = Some (Copy.OrderId entry) /\
    Copy.ParentId stop_loss = Some (Copy.OrderId entry) /\
    Copy.Transmit entry = false /\
    Copy.Transmit take_profit = false /\
    Copy.Transmit stop_loss = true /\
    Copy.OrderId entry = parent_order_id /\
    Copy.OrderId take_profit = parent_order_id + 1 /\
    Copy.OrderId stop_loss = parent_order_id + 2.
Proof.
  intro H. unfold Copy.bracket_order. rewrite H. cbn [negb]. unfold ret.
  do 3 eexists. split; [reflexivity|]. cbn. repeat split.
Qed.

(** ** Pricing signs *)




(** The limit-entry script applies the same signs to both sides: a Short
    idea's stop-loss is below its entry as well. *)
Lemma copy_prices_ignore_side (parent_order_id : Z) (action : string)
    (entry_price stop_loss_offset limit_price_offset : Q) (w : World) :
  Copy.is_side action = true ->
  map Copy.kind
    (match Copy.bracket_order parent_order_id action 1 entry_price
             stop_loss_offset limit_price_offset w with
     | Returned orders _ _ => orders
     | Raised _ _ _ => []
     end)
  = [LimitOrder entry_price;
     LimitOrder (entry_price + limit_price_offset);
     StopOrder (entry_price - stop_loss_offset)].
Proof.
  intro H. unfold Copy.bracket_order. now rewrite H.
Qed.

(** ** The price lookup *)

Lemma after_requests_tick n w :
  after_requests n (tick_mktdata w) = after_requests (S n) w.
Proof. reflexivity. Qed.

Lemma n_mktdata_tick w : n_mktdata (tick_mktdata w) = S (n_mktdata w).
Proof. reflexivity. Qed.

Lemma stp2_fetch_attempts_spec env c n : forall first w,
  let reading := fun k => reqMktData env (n_mktdata w + k)%nat c in
  (exists k price,
      (k < n)%nat /\
      (forall j, (j < k)%nat ->
         ~ (0 < last (reading j))%Q /\ ~ (0 < close (reading j))%Q) /\
      ((0 < last (reading k))%Q /\ price = last (reading k) \/
       ~ (0 < last (reading k))%Q /\ (0 < close (reading k))%Q /\
       price = close (reading k)) /\
      Stp2.fetch_attempts env c (seq first n) w
      = Returned price (after_requests (S k) w)
          (failed_attempts c first k ++ [ReqMktData c; Sleep 2]))
  \/
  ((forall j, (j < n)%nat ->
      ~ (0 < last (reading j))%Q /\ ~ (0 < close (reading j))%Q) /\
   Stp2.fetch_attempts env c (seq first n) w
   = Raised (ValueError
               ("Unable to fetch the latest price for " ++ symbol c ++ ".")%string)
       (after_requests n w) (failed_attempts c first n)).
Proof.
  induction n as [|n IH]; intros first w reading.
  - right. split; [intros j Hj; lia | reflexivity].
  - cbn [seq Stp2.fetch_attempts].
    unfold Stp2.ib_reqMktData, Stp2.sleep, Stp2.print. run_head.
    assert (H0 : reqMktData env (n_mktdata w) c = reading 0%nat)
      by (unfold reading; now rewrite Nat.add_0_r).
    rewrite H0.
    destruct (Py.gt (last (reading 0%nat)) 0) eqn:Hl.
    { left. exists 0%nat, (last (reading 0%nat)).
      apply gt_zero_iff in Hl.
      split; [lia|]. split; [intros j Hj; lia|]. split; [now left|].
      reflexivity. }
    apply gt_zero_false_iff in Hl.
    destruct (Py.gt (close (reading 0%nat)) 0) eqn:Hc.
    { left. exists 0%nat, (close (reading 0%nat)).
      apply gt_zero_iff in Hc.
      split; [lia|]. split; [intros j Hj; lia|]. split; [now right|].
      reflexivity. }
    apply gt_zero_false_iff in Hc.
    run_head.
    assert (Hshift : forall k,
              reqMktData env (n_mktdata (tick_mktdata w) + k)%nat c
              = reading (S k)).
    { intro k. unfold reading. rewrite n_mktdata_tick. f_equal. lia. }
    destruct (IH (S first) (tick_mktdata w))
      as [(k & price & Hk & Hbefore & Hat & Hrun) | (Hall & Hrun)];
      rewrite Hrun; cbn [after].
    + left. exists (S k), price. rewrite Hshift in Hat.
      split; [lia|]. split.
      * intros [|j] Hj; [now split|]. rewrite <- Hshift. apply Hbefore. lia.
      * split; [exact Hat|]. reflexivity.
    + right. split; [|reflexivity].
      intros [|j] Hj; [now split|]. rewrite <- Hshift. apply Hall. lia.
Qed.


(** The limit-entry script asks once and raises when that reading has
    neither price positive. *)
Lemma copy_fetch_latest_price_once (env : Env) (c : Contract) (w : World) :
  usable (reqMktData env (n_mktdata w) c) = false ->
  Copy.fetch_latest_price env c w
  = Raised (ValueError "Unable to fetch the latest price for the contract.")
      (tick_mktdata w) [ReqMktData c; Sleep 2].
Proof.
  intro H. unfold Copy.fetch_latest_price, Copy.ib_reqMktData, Copy.sleep.
  run_head. apply orb_false_iff in H as [-> ->]. reflexivity.
Qed.

(** ** Action codes, continued *)

(** Codes the stop-limit script accepts: case and surrounding white space
    do not matter. *)
Example stp2_accepts_padded_codes :
  Stp2.resolve_action (idea 1 "L") = Some "BUY" /\
  Stp2.resolve_action (idea 1 " l ") = Some "BUY" /\
  Stp2.resolve_action (idea 1 "s") = Some "SELL" /\
  Stp2.resolve_action
    (idea 1 (String (ascii_of_nat 9) (String "S" (String (ascii_of_nat 10) ""))))
  = Some "SELL" /\
  Stp2.resolve_action
    {| ID := 1; Symbol := "SPX"; BuySell := None; source := None |} = None.
Proof. repeat split. Qed.






(** ** The open-order ceiling *)

Lemma copy_count_orders_spec contract open_orders : forall buy_orders sell_orders,
  Copy.count_orders contract open_orders buy_orders sell_orders
  = (buy_orders + open_count "BUY" contract open_orders,
     sell_orders + open_count "SELL" contract open_orders).
Proof.
  unfold open_count.
  induction open_orders as [|o rest IH]; intros b s;
    cbn [Copy.count_orders filter].
  - cbn. f_equal; lia.
  - assert (HB : counts_as "BUY" contract o
                 = is_Order o
                   && (String.eqb (open_symbol o) (symbol contract)
                       && String.eqb (open_expiry o)
                            (lastTradeDateOrContractMonth contract))
                   && String.eqb (open_action o) "BUY") by reflexivity.
    assert (HS : counts_as "SELL" contract o
                 = is_Order o
                   && (String.eqb (open_symbol o) (symbol contract)
                       && String.eqb (open_expiry o)
                            (lastTradeDateOrContractMonth contract))
                   && String.eqb (open_action o) "SELL") by reflexivity.
    rewrite HB, HS. clear HB HS.
    destruct (is_Order o); cbn [andb]; [|apply IH].
    destruct (String.eqb (open_symbol o) (symbol contract)
              && String.eqb (open_expiry o)
                   (lastTradeDateOrContractMonth contract)); cbn [andb];
      [|apply IH].
    destruct (String.eqb_spec (open_action o) "BUY") as [E|E].
    + rewrite E. change (String.eqb "BUY" "SELL") with false.
      rewrite IH. cbn [List.length]. f_equal; lia.
    + destruct (String.eqb (open_action o) "SELL").
      * rewrite IH. cbn [List.length]. f_equal; lia.
      * apply IH.
Qed.

Lemma copy_under_limit_false (buy_orders sell_orders : Z) :
  Copy.under_limit buy_orders sell_orders = false <->
  15 <= buy_orders \/ 15 <= sell_orders.
Proof.
  unfold Copy.under_limit. rewrite andb_false_iff, !Z.ltb_ge. reflexivity.
Qed.

Lemma copy_place_all_run c orders w :
  Copy.place_all c orders w = Returned tt w (map (PlaceOrder c) orders).
Proof.
  induction orders as [|o rest IH]; [reflexivity|].
  cbn [Copy.place_all]. unfold Copy.ib_placeOrder. run_head. now rewrite IH.
Qed.


Lemma copy_place_orders_if_under_limit_run env c orders w :
  let open_orders := reqAllOpenOrders env (n_openorders w) in
  let buy_orders := open_count "BUY" c open_orders in
  let sell_orders := open_count "SELL" c open_orders in
  Copy.place_orders_if_under_limit env c orders w =
  Returned tt (tick_openorders w)
    ([ReqAllOpenOrders; Print (OpenOrderCounts buy_orders sell_orders)]
     ++ if Copy.under_limit buy_orders sell_orders
        then map (PlaceOrder c) orders ++ [Print OrdersPlaced]
        else [Print OrderLimitReached]).
Proof.
  cbv zeta. unfold Copy.place_orders_if_under_limit, Copy.check_order_limit,
    Copy.ib_reqAllOpenOrders, Copy.print.
  run_head. rewrite copy_count_orders_spec. cbn [fst snd]. rewrite !Z.add_0_l.
  destruct (Copy.under_limit _ _); run_head; [|reflexivity].
  unfold bind. rewrite copy_place_all_run. reflexivity.
Qed.

Lemma copy_fetch_latest_price_usable env c w :
  usable (reqMktData env (n_mktdata w) c) = true ->
  exists price,
    Copy.fetch_latest_price env c w
    = Returned price (tick_mktdata w) [ReqMktData c; Sleep 2].
Proof.
  intro H. unfold Copy.fetch_latest_price, Copy.ib_reqMktData, Copy.sleep.
  run_head. unfold usable in H.
  destruct (Py.gt (last _) 0); [eexists; reflexivity|].
  destruct (Py.gt (close _) 0); [eexists; reflexivity|discriminate].
Qed.

(** The run of [process_trade_idea] in the limit-entry script for an idea
    that qualifies, is priced and has a valid code. *)
Lemma copy_process_run env trade cfg w c0 cs side :
  qualifyContracts env (n_qualify w) (copy_contract trade cfg) = c0 :: cs ->
  usable (reqMktData env (n_mktdata w) c0) = true ->
  Copy.resolve_action (action_code trade) = Some side ->
  let open_orders := reqAllOpenOrders env (n_openorders w) in
  let buy_orders := open_count "BUY" c0 open_orders in
  let sell_orders := open_count "SELL" c0 open_orders in
  exists price entry take_profit stop_loss,
    Copy.OrderId entry = reqIdSeq w /\
    Copy.process_trade_idea env trade cfg w =
    Returned tt
      (tick_openorders
         (set_reqIdSeq (reqIdSeq w + 1) (tick_mktdata (tick_qualify w))))
      ([Print (ProcessingTradeID (ID trade) "");
        QualifyContracts (copy_contract trade cfg);
        ReqMktData c0; Sleep 2;
        Print (LatestPrice price);
        Print (OrderPrices
                 [(price + Copy.ORDER_entry_price_offset cfg)%Q;
                  (price + Copy.ORDER_entry_price_offset cfg
                   - Copy.ORDER_stop_loss_price cfg)%Q;
                  (price + Copy.ORDER_entry_price_offset cfg
                   + Copy.ORDER_limit_price cfg)%Q]);
        GetReqId (reqIdSeq w);
        ReqAllOpenOrders; Print (OpenOrderCounts buy_orders sell_orders)]
       ++ if Copy.under_limit buy_orders sell_orders
          then map (PlaceOrder c0) [entry; take_profit; stop_loss]
               ++ [Print OrdersPlaced]
          else [Print OrderLimitReached]).
Proof.
  intros Hq Hu Ha. cbv zeta.
  destruct (copy_fetch_latest_price_usable env c0 (tick_qualify w) Hu)
    as [price Hp].
  assert (Hs : Copy.is_side side = true).
  { destruct (copy_resolve_action_sides _ _ Ha) as [-> | ->]; reflexivity. }
  unfold Copy.process_trade_idea, Copy.print, Copy.ib_qualifyContracts.
  run_head. unfold action_code in Ha.
  destruct (BuySell trade) as [code|]; [|discriminate]. run_head.
  fold (copy_contract trade cfg). rewrite Hq. run_head.
  unfold bind at 1. rewrite Hp. run_head.
  rewrite Ha.
  unfold Copy.ib_client_getReqId. run_head.
  unfold Copy.bracket_order. rewrite Hs. cbn [negb]. run_head.
  rewrite copy_place_orders_if_under_limit_run. cbn [after app].
  do 4 eexists. split; [|reflexivity]. reflexivity.
Qed.




(** ** The orders of one idea *)

Lemma stp2_place_all_run c orders w :
  Stp2.place_all c orders w = Returned tt w (placing c orders).
Proof.
  induction orders as [|o rest IH]; [reflexivity|].
  cbn [Stp2.place_all]. unfold Stp2.print, Stp2.ib_placeOrder. run_head.
  now rewrite IH.
Qed.

Lemma placed_placing c orders : placed (placing c orders) = orders.
Proof.
  unfold placing. induction orders as [|o rest IH]; [reflexivity|].
  cbn [flat_map app placed]. now rewrite IH.
Qed.

Lemma failed_attempts_placed c n : forall first,
  placed (failed_attempts c first n) = [].
Proof. induction n as [|n IH]; intro first; cbn; auto. Qed.

(** The seed of the allocator: the counter, or the session's next request
    id when the counter has not been set. *)
Lemma stp2_submit_run c a q p1 p2 p3 p4 w :
  exists n w' pre,
    bind Stp2.initialize_order_id (fun _ =>
    bind (Stp2.bracket_order a q p1 p2 p3 p4) (fun bracket_orders =>
    bind (Stp2.place_all c bracket_orders) (fun _ => Stp2.sleep 2))) w
    = Returned tt w'
        (pre ++ placing c (stp2_legs a q p1 p2 p3 p4 n) ++ [Sleep 2]) /\
    placed pre = [] /\
    n = match ORDER_ID_COUNTER w with Some n => n | None => reqIdSeq w end /\
    ORDER_ID_COUNTER w' = Some (n + 3).
Proof.
  assert (Hgo : forall w' n, ORDER_ID_COUNTER w' = Some n ->
     bind (Stp2.bracket_order a q p1 p2 p3 p4) (fun bracket_orders =>
       bind (Stp2.place_all c bracket_orders) (fun _ => Stp2.sleep 2)) w'
     = Returned tt (set_ORDER_ID_COUNTER (Some (n + 1 + 1 + 1)) w')
         (placing c (stp2_legs a q p1 p2 p3 p4 n) ++ [Sleep 2])).
  { intros w' n Hn. unfold bind at 1.
    rewrite (stp2_bracket_order_run a q p1 p2 p3 p4 w' n Hn), after_nil.
    unfold bind. rewrite stp2_place_all_run. reflexivity. }
  unfold Stp2.initialize_order_id, Stp2.ib_client_getReqId. run_head.
  destruct (ORDER_ID_COUNTER w) as [n|] eqn:E; run_head.
  - exists n, (set_ORDER_ID_COUNTER (Some (n + 1 + 1 + 1)) w), [].
    rewrite (Hgo w n E). repeat split. cbn. f_equal. lia.
  - exists (reqIdSeq w). eexists. exists [GetReqId (reqIdSeq w)].
    erewrite Hgo by reflexivity. cbn [after].
    repeat split. cbn. f_equal. lia.
Qed.

(** The run of [process_trade_idea] once the action code has resolved and
    the contract has qualified, by the outcome of the price lookup. *)
Lemma stp2_process_priced env t cfg w a c0 cs price w1 evs1 :
  Stp2.resolve_action t = Some a ->
  qualifyContracts env (n_qualify w) (stp2_contract cfg) = c0 :: cs ->
  Stp2.fetch_latest_price env c0 (tick_qualify w) = Returned price w1 evs1 ->
  exists p n w' pre,
    Stp2.order_prices a price (Stp2.ORDER_stop_offset cfg)
      (Stp2.ORDER_limit_offset cfg) (Stp2.ORDER_stop_loss_offset cfg)
      (Stp2.ORDER_take_profit_offset cfg) = Some p /\
    placed pre = [] /\
    n = match ORDER_ID_COUNTER w1 with Some n => n | None => reqIdSeq w1 end /\
    ORDER_ID_COUNTER w' = Some (n + 3) /\
    Stp2.process_trade_idea env t cfg w
    = Returned tt w'
        ([Print (ProcessingTradeID (ID t) (source_tag t));
          Print (MappedAction (ID t) a);
          QualifyContracts (stp2_contract cfg)]
         ++ evs1
         ++ [Print (LatestPrice price);
             Print (OrderPrices [Stp2.stop_price p; Stp2.limit_price p;
                                 Stp2.stop_loss_price p;
                                 Stp2.take_profit_price p])]
         ++ pre
         ++ placing c0
              (stp2_legs a (Stp2.ORDER_quantity cfg) (Stp2.stop_price p)
                 (Stp2.limit_price p) (Stp2.stop_loss_price p)
                 (Stp2.take_profit_price p) n)
         ++ [Sleep 2]).
Proof.
  intros Ha Hq Hf.
  destruct (stp2_order_prices_side a price (Stp2.ORDER_stop_offset cfg)
              (Stp2.ORDER_limit_offset cfg) (Stp2.ORDER_stop_loss_offset cfg)
              (Stp2.ORDER_take_profit_offset cfg)
              (stp2_resolve_action_sides t a Ha)) as [p Hop].
  destruct (stp2_submit_run c0 a (Stp2.ORDER_quantity cfg) (Stp2.stop_price p)
              (Stp2.limit_price p) (Stp2.stop_loss_price p)
              (Stp2.take_profit_price p) w1)
    as (n & w' & pre & Hsub & Hpre & Hn & Hc).
  exists p, n, w', pre. repeat (split; [assumption|]).
  unfold Stp2.process_trade_idea, Stp2.print. rewrite Ha.
  unfold Stp2.ib_qualifyContracts. run_head.
  fold (stp2_contract cfg). rewrite Hq.
  unfold bind at 1. rewrite Hf. rewrite Hop. run_head.
  rewrite Hsub. cbn [after]. f_equal.
  rewrite <- !app_assoc. reflexivity.
Qed.

Lemma stp2_process_unpriced env t cfg w a c0 cs x w1 evs1 :
  Stp2.resolve_action t = Some a ->
  qualifyContracts env (n_qualify w) (stp2_contract cfg) = c0 :: cs ->
  Stp2.fetch_latest_price env c0 (tick_qualify w) = Raised x w1 evs1 ->
  Stp2.process_trade_idea env t cfg w
  = Raised x w1
      ([Print (ProcessingTradeID (ID t) (source_tag t));
        Print (MappedAction (ID t) a);
        QualifyContracts (stp2_contract cfg)] ++ evs1).
Proof.
  intros Ha Hq Hf.
  unfold Stp2.process_trade_idea, Stp2.print. rewrite Ha.
  unfold Stp2.ib_qualifyContracts. run_head.
  fold (stp2_contract cfg). rewrite Hq.
  unfold bind at 1. rewrite Hf. reflexivity.
Qed.


(** ** Ideas whose bracket went out *)







(** ** The loop of the limit-entry script *)

Lemma copy_place_all_quiet c orders : quiet (Copy.place_all c orders).
Proof.
  induction orders as [|o rest IH]; cbn [Copy.place_all].
  - quiet_tac.
  - unfold Copy.ib_placeOrder. quiet_tac.
Qed.

#[local] Hint Resolve copy_place_all_quiet : quiet.

Lemma copy_process_events env t cfg w :
  let r := Copy.process_trade_idea env t cfg w in
  processed (events r) = [ID t] /\
  written (events r) = [] /\
  last_processed_file (world r) = last_processed_file w.
Proof.
  intro r.
  assert (Hr : exists m,
             r = after [Print (ProcessingTradeID (ID t) "")] (m w) /\ quiet m).
  { unfold r, Copy.process_trade_idea. unfold Copy.print at 1.
    rewrite bind_emit. eexists. split; [reflexivity|].
    unfold Copy.print, Copy.ib_qualifyContracts, Copy.fetch_latest_price,
      Copy.ib_reqMktData, Copy.sleep, Copy.ib_client_getReqId,
      Copy.bracket_order, Copy.place_orders_if_under_limit,
      Copy.check_order_limit, Copy.ib_reqAllOpenOrders, Copy.print.
    quiet_tac. }
  destruct Hr as (m & -> & Hq).
  destruct (Hq w) as (Hf & Hw & Hp).
  rewrite events_after, world_after, processed_app, written_app.
  cbn [app processed written]. rewrite Hp, Hw. auto.
Qed.

Lemma copy_for_trades_old env cfg t rest last w :
  Copy.is_new last t = false ->
  Copy.for_trades env cfg (t :: rest) last w
  = after [Print (IgnoringTradeID (ID t))] (Copy.for_trades env cfg rest last w).
Proof.
  intro H. cbn [Copy.for_trades]. rewrite H. unfold Copy.print. now run_head.
Qed.

Lemma copy_for_trades_new env cfg t rest last w :
  Copy.is_new last t = true ->
  Copy.for_trades env cfg (t :: rest) last w
  = match Copy.process_trade_idea env t cfg w with
    | Returned _ w1 evs =>
        after (evs ++ [WriteFile (ID t)])
          (Copy.for_trades env cfg rest (Some (ID t))
             (set_last_processed_file (Holds (ID t)) w1))
    | Raised x w1 evs => Raised x w1 evs
    end.
Proof.
  intro H. cbn [Copy.for_trades]. rewrite H.
  unfold Copy.write_last_processed_id. unfold bind at 1.
  destruct (Copy.process_trade_idea env t cfg w) as [[] w1 evs|x w1 evs];
    [|reflexivity].
  run_head. reflexivity.
Qed.

Lemma copy_is_new_above last t : Copy.is_new last t = true <-> above last (ID t).
Proof.
  unfold Copy.is_new, above. destruct last as [c|]; [|easy].
  rewrite Z.gtb_ltb. apply Z.ltb_lt.
Qed.

Lemma copy_for_trades_inv env cfg l : forall last w,
  let r := Copy.for_trades env cfg l last w in
  StronglySorted Z.lt (processed (events r)) /\
  Forall (above last) (processed (events r)) /\
  (forall v w1 evs, r = Returned v w1 evs ->
     covers v (processed evs) /\ extends last v /\
     (processed evs = [] -> v = last)).
Proof.
  induction l as [|t rest IH]; intros last w; cbv zeta.
  - cbn. split; [constructor|]. split; [constructor|].
    intros v w1 evs [= <- <- <-]. split; [constructor|]. split; [|easy].
    destruct last as [c|]; cbn; [|exact I]. exists c. split; [reflexivity|lia].
  - destruct (Copy.is_new last t) eqn:Hn.
    + rewrite copy_for_trades_new by exact Hn.
      apply copy_is_new_above in Hn.
      pose proof (copy_process_events env t cfg w) as (Hp & _ & _).
      cbv zeta in Hp.
      destruct (Copy.process_trade_idea env t cfg w) as [[] w1 evs|x w1 evs];
        cbn [events] in Hp.
      * destruct (IH (Some (ID t)) (set_last_processed_file (Holds (ID t)) w1))
          as (H1 & H2 & H3). cbv zeta in *.
        rewrite events_after, !processed_app, Hp. cbn [processed app].
        split; [now constructor|]. split.
        -- constructor; [exact Hn|].
           eapply Forall_impl; [|exact H2]. cbn. intros a Ha.
           destruct last as [c|]; cbn in *; [lia|exact I].
        -- intros v w2 evs2 E.
           destruct (Copy.for_trades env cfg rest (Some (ID t)) _)
             as [v' w' evs'|x w' evs'] eqn:Er; cbn [after] in E;
             [|discriminate].
           injection E as <- <- <-.
           destruct (H3 v' w' evs' eq_refl) as (K1 & (c' & -> & Hc') & K3).
           rewrite !processed_app, Hp. cbn [processed app].
           split.
           ++ constructor; [exists c'; split; [reflexivity|lia] | exact K1].
           ++ split; [|discriminate].
              destruct last as [c|]; cbn in *; [|exact I].
              exists c'. split; [reflexivity|lia].
      * cbn [events returned]. rewrite Hp.
        split; [repeat constructor|]. split; [repeat constructor; exact Hn|].
        intros v w2 evs2 E. discriminate E.
    + rewrite copy_for_trades_old by exact Hn.
      rewrite events_after. cbn [processed app].
      destruct (IH last w) as (H1 & H2 & H3). cbv zeta in *.
      split; [exact H1|]. split; [exact H2|].
      intros v w2 evs2 E.
      destruct (Copy.for_trades env cfg rest last w)
        as [v' w' evs'|x w' evs'] eqn:Er; cbn [after] in E; [|discriminate].
      injection E as <- <- <-. cbn [processed app].
      exact (H3 _ _ _ eq_refl).
Qed.

Lemma copy_poll_cycle_eq env cfg last w :
  Copy.poll_cycle env cfg last w =
  after (copy_prelude env w)
    (if is_nonempty (fetched env w) then
       match Copy.for_trades env cfg (sorted (fetched env w)) last
               (tick_feed w) with
       | Returned v w1 evs => Returned v w1 (evs ++ [Sleep 30])
       | Raised x w1 evs => Raised x w1 evs
       end
     else Returned last (tick_feed w) [Print NoNewTradeIdeas; Sleep 30]).
Proof.
  unfold Copy.poll_cycle, Copy.fetch_trade_ideas, Copy.sleep, Copy.print,
    copy_prelude, fetched.
  run_head.
  destruct (feed env (n_feed w)) as [ideas|]; run_head;
    [ destruct (is_nonempty ideas); run_head;
      [ unfold bind;
        destruct (Copy.for_trades env cfg (sorted ideas) _ (tick_feed w));
        cbn; rewrite ?app_nil_r; reflexivity
      | reflexivity ]
    | reflexivity ].
Qed.

Lemma copy_prelude_processed env w : processed (copy_prelude env w) = [].
Proof. unfold copy_prelude. destruct (feed env (n_feed w)); reflexivity. Qed.

Lemma extends_refl last : extends last last.
Proof.
  destruct last as [c|]; cbn; [|exact I]. exists c. split; [reflexivity|lia].
Qed.

Lemma copy_poll_cycle_inv env cfg last w :
  let r := Copy.poll_cycle env cfg last w in
  StronglySorted Z.lt (processed (events r)) /\
  Forall (above last) (processed (events r)) /\
  (forall v w1 evs, r = Returned v w1 evs ->
     covers v (processed evs) /\ extends last v /\
     (processed evs = [] -> v = last)).
Proof.
  cbv zeta. rewrite copy_poll_cycle_eq.
  rewrite events_after, processed_app, copy_prelude_processed. cbn [app].
  pose proof (copy_prelude_processed env w) as Hpre.
  generalize dependent (copy_prelude env w). intros pre Hpre.
  destruct (is_nonempty (fetched env w)).
  - destruct (copy_for_trades_inv env cfg (sorted (fetched env w)) last
                (tick_feed w)) as (H1 & H2 & H3). cbv zeta in *.
    destruct (Copy.for_trades env cfg _ last (tick_feed w))
      as [v w1 evs|x w1 evs]; cbn [events after] in *.
    + rewrite processed_app. cbn [processed]. rewrite app_nil_r.
      split; [exact H1|]. split; [exact H2|].
      intros v' w' evs' E.
      assert (E' : processed evs' = processed evs).
      { injection E as _ _ <-.
        rewrite !processed_app, Hpre. cbn [processed app].
        apply app_nil_r. }
      assert (Ev : v' = v) by (injection E as <- _ _; reflexivity).
      rewrite E', Ev. exact (H3 _ _ _ eq_refl).
    + split; [exact H1|]. split; [exact H2|]. intros; discriminate.
  - cbn [events after processed].
    split; [constructor|]. split; [constructor|].
    intros v' w' evs' E.
    assert (E' : processed evs' = []).
    { injection E as _ _ <-. now rewrite processed_app, Hpre. }
    assert (Ev : v' = last) by (injection E as <- _ _; reflexivity).
    rewrite E', Ev.
    split; [constructor|]. split; [apply extends_refl | reflexivity].
Qed.

Lemma above_extends last v id : extends last v -> above v id -> above last id.
Proof.
  destruct last as [c|]; cbn; [|easy].
  intros (c' & -> & Hc). cbn. lia.
Qed.

Lemma copy_while_True_inv env cfg turns : forall last w,
  let r := Copy.while_True env turns cfg last w in
  StronglySorted Z.lt (processed (events r)) /\
  Forall (above last) (processed (events r)).
Proof.
  induction turns as [|n IH]; intros last w; cbv zeta.
  - cbn. split; constructor.
  - cbn [Copy.while_True]. unfold bind.
    destruct (copy_poll_cycle_inv env cfg last w) as (H1 & H2 & H3).
    cbv zeta in *.
    destruct (Copy.poll_cycle env cfg last w) as [v w1 evs|x w1 evs];
      cbn [events] in *; [|now split].
    destruct (H3 v w1 evs eq_refl) as (K1 & K2 & K3).
    destruct (IH v w1) as (J1 & J2). cbv zeta in *.
    rewrite events_after, processed_app.
    split.
    + destruct (processed evs) as [|p ps] eqn:Ep.
      * exact J1.
      * inversion K1 as [|? ? (c & -> & _) _]; subst.
        apply StronglySorted_lt_app with c; [exact H1 | exact J1 | | exact J2].
        eapply Forall_impl; [|exact K1]. cbn beta.
        intros a (c0 & [= <-] & Ha). exact Ha.
    + apply Forall_app. split; [exact H2|].
      eapply Forall_impl; [|exact J2]. intros a. now apply above_extends.
Qed.

Lemma copy_poll_cashbox_service_processed env cfg turns w :
  StronglySorted Z.lt
    (processed (events (Copy.poll_cashbox_service env cfg turns w))).
Proof.
  unfold Copy.poll_cashbox_service, Copy.read_last_processed_id, Copy.print.
  run_head.
  destruct (last_processed_file w); run_head;
    (destruct (connect_ok env); [apply copy_while_True_inv | cbn; constructor]).
Qed.

(** A throttled idea of the limit-entry script: processing returns and
    nothing is placed. *)
Lemma copy_process_throttled env trade cfg w c0 cs side :
  qualifyContracts env (n_qualify w) (copy_contract trade cfg) = c0 :: cs ->
  usable (reqMktData env (n_mktdata w) c0) = true ->
  Copy.resolve_action (action_code trade) = Some side ->
  at_ceiling env c0 w ->
  let r := Copy.process_trade_idea env trade cfg w in
  returned r = true /\
  placed (events r) = [] /\
  In (Print OrderLimitReached) (events r).
Proof.
  intros Hq Hu Ha Hfull. cbv zeta. unfold at_ceiling in Hfull.
  destruct (copy_process_run env trade cfg w c0 cs side Hq Hu Ha)
    as (price & entry & tp & sl & _ & Hrun).
  cbv zeta in Hrun. rewrite Hrun.
  apply copy_under_limit_false in Hfull. rewrite Hfull.
  split; [reflexivity|]. split; [reflexivity|]. cbn. tauto.
Qed.

(** ** The cursor *)

Lemma maximum_unique z l m :
  z <= m -> (forall x, In x l -> x <= m) -> (m = z \/ In m l) ->
  m = maximum z l.
Proof.
  intros Hz Hl Hm.
  pose proof (maximum_ge z l) as H1.
  assert (H2 : m <= maximum z l).
  { destruct Hm as [->|Hin]; [exact H1 | now apply maximum_upper]. }
  destruct (maximum_attained z l) as [E|E]; [lia|].
  specialize (Hl _ E). lia.
Qed.

Lemma stp2_poll_cycle_complete env cfg w :
  let r := Stp2.poll_cycle env cfg w in
  returned r = true ->
  forall t, In t (fetched env w) -> cursor_value w < ID t ->
    In (ID t) (processed (events r)).
Proof.
  cbv zeta. rewrite stp2_poll_cycle_eq, returned_after, events_after,
    processed_app, stp2_prelude_processed. cbn [app].
  intros Hr t Hin Hlt.
  destruct (fetched env w) as [|t0 b] eqn:Hb; [easy|].
  cbn [is_nonempty] in *. rewrite <- Hb in *.
  pose proof (stp2_for_trades_complete env cfg (sorted (fetched env w))
                (sorted_sorted _) (cursor_value w) (tick_feed w)) as Hc.
  destruct (Stp2.for_trades env cfg (sorted (fetched env w)) _ (tick_feed w))
    as [c1 w1 evs|x w1 evs]; [|discriminate].
  cbn [events returned] in *. rewrite processed_app. cbn [processed].
  rewrite app_nil_r. apply Hc; [reflexivity | now apply sorted_In | exact Hlt].
Qed.

(** C3, as stated, fails: of the ideas 3 (code L) and 5 (code X) only the
    bracket of idea 3 goes out, yet the cursor ends on 5, the id of the
    idea that was skipped for its action code. *)
Lemma cursor_passes_a_skipped_idea :
  let env := session quote_5000 [idea 3 "L"; idea 5 "X"] [] in
  let r := Stp2.poll_cycle env (stp2_config (-10)) fresh_world in
  returned r = true /\
  processed (events r) = [3; 5] /\
  dispatched (events r) = [3] /\
  map Stp2.orderId (placed (events r)) = [101; 102; 103] /\
  cursor_value (world r) = 5 /\
  cursor_value (world r) <> maximum (cursor_value fresh_world) (dispatched (events r)).
Proof.
  cbv zeta. repeat split; try reflexivity. vm_compute. discriminate.
Qed.

(** C3 (monotonic cursor), amended.  The cursor after a polling turn is
    never below the cursor before it.  When the turn completes, the cursor
    is the largest of the previous cursor and the ids handed to
    [process_trade_idea] in the turn, dispatched or skipped alike, which is
    the largest of the previous cursor and the ids of the fetched batch. *)
Theorem cursor_monotonic (env : Env) (config : Stp2.Config) (w : World) :
  let r := Stp2.poll_cycle env config w in
  cursor_value w <= cursor_value (world r) /\
  (returned r = true ->
     cursor_value (world r)
     = maximum (cursor_value w) (processed (events r)) /\
     cursor_value (world r)
     = maximum (cursor_value w) (map ID (fetched env w))).
Proof.
  cbv zeta.
  destruct (stp2_poll_cycle_inv env config w) as (H1 & H2 & H3 & H4 & H5).
  pose proof (stp2_poll_cycle_complete env config w) as Hc.
  cbv zeta in *. split; [exact H4|]. intro Hr.
  destruct (H5 Hr) as (H6 & H7). specialize (Hc Hr).
  assert (Hup : forall t, In t (fetched env w) ->
                  ID t <= cursor_value (world (Stp2.poll_cycle env config w))).
  { intros t Ht.
    destruct (Z.le_gt_cases (ID t) (cursor_value w)) as [Hle|Hgt]; [lia|].
    rewrite Forall_forall in H6. apply H6. apply Hc; assumption. }
  assert (Hat : cursor_value (world (Stp2.poll_cycle env config w))
                = cursor_value w
                \/ In (cursor_value (world (Stp2.poll_cycle env config w)))
                     (processed (events (Stp2.poll_cycle env config w)))).
  { destruct (maximum_attained (cursor_value w)
                (map ID (sorted (fetched env w)))) as [E|E];
      rewrite <- H7 in E; [now left|].
    apply in_map_iff in E as (t & Et & Ht).
    apply (proj1 (sorted_In _ _)) in Ht.
    destruct (Z.le_gt_cases (ID t) (cursor_value w)) as [Hle|Hgt].
    - left. lia.
    - right. rewrite <- Et. apply Hc; assumption. }
  split.
  - apply maximum_unique; [exact H4 | | exact Hat].
    intros x Hx. rewrite Forall_forall in H6. now apply H6.
  - apply maximum_unique; [exact H4 | | ].
    + intros x Hx. apply in_map_iff in Hx as (t & <- & Ht). now apply Hup.
    + destruct Hat as [E|E]; [now left|right].
      rewrite Forall_forall in H3. now apply H3.
Qed.

(** ** Polling again *)

Lemma ignoring_events (l : list Trade) :
  let evs := map (fun t => @Print Stp2.Order (IgnoringTradeID (ID t))) l in
  placed evs = [] /\ processed evs = [] /\ written evs = [].
Proof.
  cbv zeta. induction l as [|t r (H1 & H2 & H3)]; cbn; auto.
Qed.

Lemma stp2_prelude_written env w : written (stp2_prelude env w) = [].
Proof.
  unfold stp2_prelude.
  destruct (last_processed_file w), (feed env (n_feed w)); reflexivity.
Qed.

(** C4 (idempotence of re-polling).  When every idea of the fetched batch
    has an id at or below the cursor, the polling turn completes, hands no
    order to the broker and no idea to [process_trade_idea], and leaves the
    cursor file, the order-id counter and the session's id sequence as they
    were. *)
Theorem repolling_is_idempotent (env : Env) (config : Stp2.Config)
    (w : World) :
  (forall t, In t (fetched env w) -> ID t <= cursor_value w) ->
  let r := Stp2.poll_cycle env config w in
  returned r = true /\
  placed (events r) = [] /\
  processed (events r) = [] /\
  written (events r) = [] /\
  last_processed_file (world r) = last_processed_file w /\
  cursor_value (world r) = cursor_value w /\
  ORDER_ID_COUNTER (world r) = ORDER_ID_COUNTER w /\
  reqIdSeq (world r) = reqIdSeq w.
Proof.
  intros Hold. cbv zeta. rewrite stp2_poll_cycle_eq.
  rewrite returned_after, events_after, world_after, placed_app,
    processed_app, written_app, stp2_prelude_placed, stp2_prelude_processed,
    stp2_prelude_written. cbn [app].
  destruct (is_nonempty (fetched env w)); [|now cbn].
  rewrite stp2_for_trades_all_old.
  - cbn [returned events world].
    rewrite placed_app, processed_app, written_app.
    destruct (ignoring_events (sorted (fetched env w))) as (-> & -> & ->).
    now cbn.
  - apply Forall_forall. intros t Ht. apply Hold. now apply sorted_In.
Qed.

Lemma repolling_is_idempotent_witness :
  let env := session quote_5000 [idea 3 "L"; idea 2 "S"] [] in
  let w := set_last_processed_file (Holds 5) fresh_world in
  let r := Stp2.poll_cycle env (stp2_config (-10)) w in
  returned r = true /\
  placed (events r) = [] /\
  processed (events r) = [] /\
  written (events r) = [] /\
  last_processed_file (world r) = last_processed_file w /\
  cursor_value (world r) = cursor_value w /\
  ORDER_ID_COUNTER (world r) = ORDER_ID_COUNTER w /\
  reqIdSeq (world r) = reqIdSeq w.
Proof.
  apply (repolling_is_idempotent
           (session quote_5000 [idea 3 "L"; idea 2 "S"] [])
           (stp2_config (-10))
           (set_last_processed_file (Holds 5) fresh_world)).
  intros t [<- | [<- | []]]; vm_compute; discriminate.
Defined.

(** ** Order of dispatch *)


(** ** Failures of single ideas *)


Lemma stp2_advances env config t rest c w :
  c < ID t ->
  returned (Stp2.process_trade_idea env
              (Stp2.set_source t (Stp2.ORDER_source config)) config w) = true ->
  stp2_advances_past env config t rest c w.
Proof.
  intros Hlt Hr. unfold stp2_advances_past.
  pose proof (stp2_for_trades_new env config t rest c w Hlt) as Hstep.
  destruct (Stp2.process_trade_idea env _ config w) as [[] w1 evs|x w1 evs];
    [|discriminate].
  exists w1, evs. split; [reflexivity | exact Hstep].
Qed.

Lemma copy_advances env config t rest last w :
  Copy.is_new last t = true ->
  returned (Copy.process_trade_idea env t config w) = true ->
  copy_advances_past env config t rest last w.
Proof.
  intros Hn Hr. unfold copy_advances_past.
  pose proof (copy_for_trades_new env config t rest last w Hn) as Hstep.
  destruct (Copy.process_trade_idea env t config w) as [[] w1 evs|x w1 evs];
    [|discriminate].
  exists w1, evs. split; [reflexivity | exact Hstep].
Qed.




(** ** Skipped ideas *)

Lemma stp2_poll_cashbox_service_processed env cfg turns w :
  StronglySorted Z.lt
    (processed (events (Stp2.poll_cashbox_service env cfg turns w))).
Proof.
  unfold Stp2.poll_cashbox_service.
  destruct (connect_ok env); [|cbn; constructor].
  apply stp2_while_True_inv.
Qed.

(** C10 (skip and advance).  Whenever [process_trade_idea] returns for an
    idea above the cursor, placing orders or not, the loop writes the
    idea's id to the cursor file and goes on with the rest of the batch
    from that id, so the cursor at the end of the batch is at or above it.
    The skipping paths are such returns: an invalid action code and a
    failed qualification in the stop-limit script, a denial at the
    open-order ceiling in the limit-entry script, whose loop advances in
    the same way.  Over any number of polling turns the ids handed to
    [process_trade_idea] ascend strictly and lie above the cursor the
    service started from, so no idea, skipped or dispatched, is taken up a
    second time. *)
Theorem skip_and_advance (env : Env) (config : Stp2.Config) (t : Trade)
    (rest : list Trade) (c : Z) (w : World) :
  let t' := Stp2.set_source t (Stp2.ORDER_source config) in
  c < ID t ->
  returned (Stp2.process_trade_idea env t' config w) = true ->
  stp2_advances_past env config t rest c w /\
  ID t <= cursor_value (world (Stp2.for_trades env config (t :: rest) c w)) /\
  (forall w0, Stp2.resolve_action t = None ->
     returned (Stp2.process_trade_idea env t' config w0) = true /\
     placed (events (Stp2.process_trade_idea env t' config w0)) = []) /\
  (forall w0,
     qualifyContracts env (n_qualify w0) (stp2_contract config) = [] ->
     returned (Stp2.process_trade_idea env t' config w0) = true /\
     placed (events (Stp2.process_trade_idea env t' config w0)) = []) /\
  (forall turns w0,
     let ids :=
       processed (events (Stp2.poll_cashbox_service env config turns w0)) in
     StronglySorted Z.lt ids /\ Forall (Z.lt (cursor_value w0)) ids) /\
  (forall (config' : Copy.Config) t0 rest0 last w0,
     Copy.is_new last t0 = true ->
     returned (Copy.process_trade_idea env t0 config' w0) = true ->
     copy_advances_past env config' t0 rest0 last w0) /\
  (forall (config' : Copy.Config) t0 w0 c0 cs side,
     qualifyContracts env (n_qualify w0) (copy_contract t0 config') = c0 :: cs ->
     usable (reqMktData env (n_mktdata w0) c0) = true ->
     Copy.resolve_action (action_code t0) = Some side ->
     at_ceiling env c0 w0 ->
     returned (Copy.process_trade_idea env t0 config' w0) = true /\
     placed (events (Copy.process_trade_idea env t0 config' w0)) = []) /\
  (forall (config' : Copy.Config) turns w0,
     StronglySorted Z.lt
       (processed (events (Copy.poll_cashbox_service env config' turns w0)))).
Proof.
  cbv zeta. intros Hlt Hr.
  pose proof (stp2_advances env config t rest c w Hlt Hr) as Hadv.
  split; [exact Hadv|].
  split.
  { destruct Hadv as (w1 & evs & _ & Hstep). rewrite Hstep, world_after.
    destruct (stp2_for_trades_inv env config rest (ID t)
                (set_last_processed_file (Holds (ID t)) w1) eq_refl)
      as (_ & _ & _ & H & _).
    exact H. }
  split.
  { intros w0 Ha. rewrite stp2_process_invalid_action by exact Ha.
    split; reflexivity. }
  split.
  { intros w0 Hq.
    destruct (Stp2.resolve_action (Stp2.set_source t (Stp2.ORDER_source config)))
      as [a|] eqn:Ha.
    - rewrite (stp2_process_unqualified _ _ _ _ a Ha Hq). split; reflexivity.
    - rewrite stp2_process_invalid_action by exact Ha. split; reflexivity. }
  split.
  { intros turns w0. cbv zeta. unfold Stp2.poll_cashbox_service.
    destruct (connect_ok env); [|cbn; split; constructor].
    destruct (stp2_while_True_inv env config turns w0) as (H1 & H2 & _).
    now split. }
  split.
  { intros config' t0 rest0 last w0. apply copy_advances. }
  split.
  { intros config' t0 w0 c0 cs side Hq Hu Ha Hc.
    destruct (copy_process_throttled env t0 config' w0 c0 cs side Hq Hu Ha Hc)
      as (H1 & H2 & _).
    now split. }
  intros config' turns w0. apply copy_poll_cashbox_service_processed.
Qed.

Lemma skip_and_advance_witness :
  let env := session quote_5000 [] [] in
  let config := stp2_config (-10) in
  let t := idea 5 "X" in
  let rest := [idea 9 "L"] in
  let c := 0 in
  let w := fresh_world in
  let t' := Stp2.set_source t (Stp2.ORDER_source config) in
  stp2_advances_past env config t rest c w /\
  ID t <= cursor_value (world (Stp2.for_trades env config (t :: rest) c w)) /\
  (forall w0, Stp2.resolve_action t = None ->
     returned (Stp2.process_trade_idea env t' config w0) = true /\
     placed (events (Stp2.process_trade_idea env t' config w0)) = []) /\
  (forall w0,
     qualifyContracts env (n_qualify w0) (stp2_contract config) = [] ->
     returned (Stp2.process_trade_idea env t' config w0) = true /\
     placed (events (Stp2.process_trade_idea env t' config w0)) = []) /\
  (forall turns w0,
     let ids :=
       processed (events (Stp2.poll_cashbox_service env config turns w0)) in
     StronglySorted Z.lt ids /\ Forall (Z.lt (cursor_value w0)) ids) /\
  (forall (config' : Copy.Config) t0 rest0 last w0,
     Copy.is_new last t0 = true ->
     returned (Copy.process_trade_idea env t0 config' w0) = true ->
     copy_advances_past env config' t0 rest0 last w0) /\
  (forall (config' : Copy.Config) t0 w0 c0 cs side,
     qualifyContracts env (n_qualify w0) (copy_contract t0 config') = c0 :: cs ->
     usable (reqMktData env (n_mktdata w0) c0) = true ->
     Copy.resolve_action (action_code t0) = Some side ->
     at_ceiling env c0 w0 ->
     returned (Copy.process_trade_idea env t0 config' w0) = true /\
     placed (events (Copy.process_trade_idea env t0 config' w0)) = []) /\
  (forall (config' : Copy.Config) turns w0,
     StronglySorted Z.lt
       (processed (events (Copy.poll_cashbox_service env config' turns w0)))).
Proof.
  apply (skip_and_advance (session quote_5000 [] []) (stp2_config (-10))
           (idea 5 "X") [idea 9 "L"] 0 fresh_world);
    reflexivity.
Defined.

(** * Further properties of the two scripts *)

(** ** The order-id allocator over a whole run *)

Lemma seeds_app {O} (a b : list (Event O)) : seeds (a ++ b) = seeds a ++ seeds b.
Proof.
  induction a as [|e a IH]; [reflexivity|].
  destruct e; simpl; auto. now rewrite IH.
Qed.

Lemma order_ids_app a b : order_ids (a ++ b) = order_ids a ++ order_ids b.
Proof. unfold order_ids. now rewrite placed_app, map_app. Qed.

Lemma allocates_nothing c : allocates c [] [] c.
Proof.
  split; [constructor|]. destruct c as [n|]; [|now left].
  split; [reflexivity|]. split; [constructor|].
  exists n. split; [reflexivity|]. split; [lia|constructor].
Qed.

Lemma allocates_compose c ids1 sd1 c1 ids2 sd2 c2 :
  allocates c ids1 sd1 c1 -> allocates c1 ids2 sd2 c2 ->
  allocates c (ids1 ++ ids2) (sd1 ++ sd2) c2.
Proof.
  intros [S1 H1] [S2 H2].
  assert (Hjoin : forall n1, c1 = Some n1 ->
            Forall (fun id => id <= n1) ids1 ->
            StronglySorted Z.lt (ids1 ++ ids2) /\
            sd2 = [] /\ Forall (Z.lt n1) ids2 /\
            exists n', c2 = Some n' /\ n1 <= n' /\
                       Forall (fun id => id <= n') ids2).
  { intros n1 -> Hle. destruct H2 as (-> & Hgt & n' & -> & Hn & Hle2).
    split; [now apply StronglySorted_lt_app with n1|].
    split; [reflexivity|]. split; [exact Hgt|].
    exists n'. auto. }
  destruct c as [n|].
  - destruct H1 as (-> & Hgt & n1 & E1 & Hn1 & Hle1).
    destruct (Hjoin n1 E1 Hle1) as (S & -> & Hgt2 & n' & -> & Hn' & Hle2).
    split; [exact S|]. split; [reflexivity|]. split.
    + apply Forall_app. split; [exact Hgt|].
      eapply Forall_impl; [|exact Hgt2]. cbn beta. intros; lia.
    + exists n'. split; [reflexivity|]. split; [lia|].
      apply Forall_app. split; [|exact Hle2].
      eapply Forall_impl; [|exact Hle1]. cbn beta. intros; lia.
  - destruct H1 as [(-> & -> & ->) | (s & n1 & -> & Hgt & E1 & Hs & Hle1)].
    + cbn [app]. split; [exact S2 | exact H2].
    + destruct (Hjoin n1 E1 Hle1) as (S & -> & Hgt2 & n' & -> & Hn' & Hle2).
      split; [exact S|]. right. exists s, n'.
      split; [reflexivity|]. split.
      * apply Forall_app. split; [exact Hgt|].
        eapply Forall_impl; [|exact Hgt2]. cbn beta. intros; lia.
      * split; [reflexivity|]. split; [lia|].
        apply Forall_app. split; [|exact Hle2].
        eapply Forall_impl; [|exact Hle1]. cbn beta. intros; lia.
Qed.

Lemma after_requests_counter k : forall w,
  ORDER_ID_COUNTER (after_requests k w) = ORDER_ID_COUNTER w /\
  reqIdSeq (after_requests k w) = reqIdSeq w /\
  last_processed_file (after_requests k w) = last_processed_file w.
Proof.
  induction k as [|k IH]; intro w; [easy|]. cbn [after_requests].
  destruct (IH (tick_mktdata w)) as (-> & -> & ->). easy.
Qed.

Lemma failed_attempts_seeds c n : forall first,
  seeds (failed_attempts c first n) = [].
Proof. induction n as [|n IH]; intro first; cbn; auto. Qed.

Lemma seeds_placing c orders : seeds (placing c orders) = [].
Proof.
  unfold placing. induction orders as [|o r IH]; [reflexivity|].
  cbn [flat_map app seeds]. exact IH.
Qed.

(** The tail of [process_trade_idea], from the seeding of the counter on. *)
Lemma stp2_submit_allocates c a q p1 p2 p3 p4 w :
  exists w' evs,
    bind Stp2.initialize_order_id (fun _ =>
    bind (Stp2.bracket_order a q p1 p2 p3 p4) (fun bracket_orders =>
    bind (Stp2.place_all c bracket_orders) (fun _ => Stp2.sleep 2))) w
    = Returned tt w' evs /\
    allocates (ORDER_ID_COUNTER w) (order_ids evs) (seeds evs)
      (ORDER_ID_COUNTER w') /\
    List.length (order_ids evs) = 3%nat.
Proof.
  assert (Hgo : forall w' n, ORDER_ID_COUNTER w' = Some n ->
     bind (Stp2.bracket_order a q p1 p2 p3 p4) (fun bracket_orders =>
       bind (Stp2.place_all c bracket_orders) (fun _ => Stp2.sleep 2)) w'
     = Returned tt (set_ORDER_ID_COUNTER (Some (n + 1 + 1 + 1)) w')
         (placing c (stp2_legs a q p1 p2 p3 p4 n) ++ [Sleep 2])).
  { intros w' n Hn. unfold bind at 1.
    rewrite (stp2_bracket_order_run a q p1 p2 p3 p4 w' n Hn), after_nil.
    unfold bind. rewrite stp2_place_all_run. reflexivity. }
  assert (Hids : forall n,
     order_ids (placing c (stp2_legs a q p1 p2 p3 p4 n) ++ [Sleep 2])
     = [n + 1; n + 1 + 1; n + 1 + 1 + 1]).
  { intro n. unfold order_ids.
    rewrite placed_app, placed_placing. reflexivity. }
  assert (Hsd : forall n,
     seeds (placing c (stp2_legs a q p1 p2 p3 p4 n) ++ [Sleep 2]) = []).
  { intro n. now rewrite seeds_app, seeds_placing. }
  assert (Hsorted : forall n,
            StronglySorted Z.lt [n + 1; n + 1 + 1; n + 1 + 1 + 1]).
  { intro n. repeat constructor; lia. }
  unfold Stp2.initialize_order_id, Stp2.ib_client_getReqId. run_head.
  destruct (ORDER_ID_COUNTER w) as [n|] eqn:E; run_head.
  - rewrite (Hgo w n E). do 2 eexists. split; [reflexivity|].
    rewrite Hids, Hsd. split; [|reflexivity].
    split; [apply Hsorted|]. split; [reflexivity|].
    split; [repeat constructor; lia|].
    exists (n + 1 + 1 + 1). cbn. split; [reflexivity|].
    split; [lia|repeat constructor; lia].
  - erewrite Hgo by reflexivity. cbn [after].
    do 2 eexists. split; [reflexivity|].
    change (GetReqId (reqIdSeq w) :: ?l) with ([GetReqId (reqIdSeq w)] ++ l).
    rewrite order_ids_app, seeds_app, Hids, Hsd. cbn [order_ids placed map app seeds].
    split; [|reflexivity].
    split; [apply Hsorted|]. right.
    exists (reqIdSeq w), (reqIdSeq w + 1 + 1 + 1).
    split; [reflexivity|]. split; [repeat constructor; lia|].
    split; [reflexivity|]. split; [lia|repeat constructor; lia].
Qed.

Lemma stp2_process_priced_tail env t cfg w a c0 cs price w1 evs1 :
  Stp2.resolve_action t = Some a ->
  qualifyContracts env (n_qualify w) (stp2_contract cfg) = c0 :: cs ->
  Stp2.fetch_latest_price env c0 (tick_qualify w) = Returned price w1 evs1 ->
  exists p,
    Stp2.process_trade_idea env t cfg w
    = after ([Print (ProcessingTradeID (ID t) (source_tag t));
              Print (MappedAction (ID t) a);
              QualifyContracts (stp2_contract cfg)]
             ++ evs1
             ++ [Print (LatestPrice price);
                 Print (OrderPrices [Stp2.stop_price p; Stp2.limit_price p;
                                     Stp2.stop_loss_price p;
                                     Stp2.take_profit_price p])])
        (bind Stp2.initialize_order_id (fun _ =>
         bind (Stp2.bracket_order a (Stp2.ORDER_quantity cfg)
                 (Stp2.stop_price p) (Stp2.limit_price p)
                 (Stp2.stop_loss_price p) (Stp2.take_profit_price p))
           (fun bracket_orders =>
         bind (Stp2.place_all c0 bracket_orders) (fun _ => Stp2.sleep 2))) w1).
Proof.
  intros Ha Hq Hf.
  destruct (stp2_order_prices_side a price (Stp2.ORDER_stop_offset cfg)
              (Stp2.ORDER_limit_offset cfg) (Stp2.ORDER_stop_loss_offset cfg)
              (Stp2.ORDER_take_profit_offset cfg)
              (stp2_resolve_action_sides t a Ha)) as [p Hop].
  exists p.
  unfold Stp2.process_trade_idea, Stp2.print. rewrite Ha.
  unfold Stp2.ib_qualifyContracts. run_head.
  fold (stp2_contract cfg). rewrite Hq.
  unfold bind at 1. rewrite Hf. rewrite Hop. run_head.
  f_equal. rewrite <- !app_assoc. reflexivity.
Qed.

Lemma stp2_process_allocates env t cfg w :
  let r := Stp2.process_trade_idea env t cfg w in
  allocates (ORDER_ID_COUNTER w) (order_ids (events r)) (seeds (events r))
    (ORDER_ID_COUNTER (world r)).
Proof.
  cbv zeta.
  destruct (Stp2.resolve_action t) as [a|] eqn:Ha;
    [|rewrite stp2_process_invalid_action by exact Ha; apply allocates_nothing].
  destruct (qualifyContracts env (n_qualify w) (stp2_contract cfg))
    as [|c0 cs] eqn:Hq;
    [rewrite (stp2_process_unqualified _ _ _ _ a Ha Hq); apply allocates_nothing|].
  destruct (stp2_fetch_attempts_spec env c0 Stp2.retry_count 0%nat (tick_qualify w))
    as [(k & price & _ & _ & _ & Hrun) | (_ & Hrun)].
  - destruct (stp2_process_priced_tail env t cfg w a c0 cs _ _ _ Ha Hq Hrun)
      as (p & ->).
    destruct (stp2_submit_allocates c0 a (Stp2.ORDER_quantity cfg)
                (Stp2.stop_price p) (Stp2.limit_price p)
                (Stp2.stop_loss_price p) (Stp2.take_profit_price p)
                (after_requests (S k) (tick_qualify w)))
      as (w' & evs & -> & Hal & _).
    cbn [after events world].
    destruct (after_requests_counter (S k) (tick_qualify w)) as (Ec & _ & _).
    rewrite Ec in Hal. cbn [tick_qualify ORDER_ID_COUNTER] in Hal.
    rewrite !order_ids_app, !seeds_app, failed_attempts_seeds.
    unfold order_ids at 1 2 3 4. rewrite failed_attempts_placed.
    exact Hal.
  - rewrite (stp2_process_unpriced env t cfg w a c0 cs _ _ _ Ha Hq Hrun).
    cbn [events world].
    destruct (after_requests_counter Stp2.retry_count (tick_qualify w))
      as (-> & _ & _).
    rewrite order_ids_app, seeds_app, failed_attempts_seeds.
    unfold order_ids. rewrite failed_attempts_placed.
    apply allocates_nothing.
Qed.

Lemma stp2_for_trades_allocates env cfg l : forall c w,
  let r := Stp2.for_trades env cfg l c w in
  allocates (ORDER_ID_COUNTER w) (order_ids (events r)) (seeds (events r))
    (ORDER_ID_COUNTER (world r)).
Proof.
  induction l as [|t rest IH]; intros c w; cbv zeta.
  - apply allocates_nothing.
  - destruct (Z.le_gt_cases (ID t) c) as [Hle|Hgt].
    + rewrite stp2_for_trades_old by exact Hle.
      rewrite events_after, world_after. apply IH.
    + rewrite stp2_for_trades_new by exact Hgt.
      pose proof (stp2_process_allocates env
                    (Stp2.set_source t (Stp2.ORDER_source cfg)) cfg w) as Hp.
      cbv zeta in Hp.
      destruct (Stp2.process_trade_idea env _ cfg w) as [[] w1 evs|x w1 evs];
        cbn [events world] in Hp; [|exact Hp].
      rewrite events_after, world_after.
      change (Print (ProcessingNewTradeID (ID t)) :: evs ++ ?l)
        with ([Print (ProcessingNewTradeID (ID t))] ++ evs ++ l).
      rewrite !order_ids_app, !seeds_app.
      cbn [order_ids placed map seeds app]. rewrite !app_nil_r.
      eapply allocates_compose; [exact Hp|].
      apply (IH (ID t) (set_last_processed_file (Holds (ID t)) w1)).
Qed.

Lemma stp2_prelude_seeds env w : seeds (stp2_prelude env w) = [].
Proof.
  unfold stp2_prelude.
  destruct (last_processed_file w), (feed env (n_feed w)); reflexivity.
Qed.

Lemma stp2_poll_cycle_allocates env cfg w :
  let r := Stp2.poll_cycle env cfg w in
  allocates (ORDER_ID_COUNTER w) (order_ids (events r)) (seeds (events r))
    (ORDER_ID_COUNTER (world r)).
Proof.
  cbv zeta. rewrite stp2_poll_cycle_eq, events_after, world_after,
    order_ids_app, seeds_app, stp2_prelude_seeds.
  unfold order_ids at 1. rewrite stp2_prelude_placed. cbn [map app].
  destruct (is_nonempty (fetched env w)); [|apply allocates_nothing].
  pose proof (stp2_for_trades_allocates env cfg (sorted (fetched env w))
                (cursor_value w) (tick_feed w)) as H.
  cbv zeta in H.
  destruct (Stp2.for_trades env cfg _ _ _) as [c1 w1 evs|x w1 evs];
    cbn [events world] in *; [|exact H].
  rewrite order_ids_app, seeds_app. cbn [order_ids placed map seeds].
  now rewrite !app_nil_r.
Qed.

Lemma stp2_while_True_allocates env cfg turns : forall w,
  let r := Stp2.while_True turns (Stp2.poll_cycle env cfg) w in
  allocates (ORDER_ID_COUNTER w) (order_ids (events r)) (seeds (events r))
    (ORDER_ID_COUNTER (world r)).
Proof.
  induction turns as [|n IH]; intro w; cbv zeta; [apply allocates_nothing|].
  cbn [Stp2.while_True]. unfold bind.
  pose proof (stp2_poll_cycle_allocates env cfg w) as H. cbv zeta in H.
  destruct (Stp2.poll_cycle env cfg w) as [[] w1 evs|x w1 evs];
    cbn [events world] in *; [|exact H].
  rewrite events_after, world_after, order_ids_app, seeds_app.
  eapply allocates_compose; [exact H | apply IH].
Qed.

Lemma StronglySorted_lt_NoDup l : StronglySorted Z.lt l -> NoDup l.
Proof.
  induction 1 as [|x l Hs IH Hall]; constructor; [|exact IH].
  intro Hin. rewrite Forall_forall in Hall. specialize (Hall x Hin). lia.
Qed.

(** X1.  Order ids never repeat.  Over any number of polling turns of the
    stop-limit script, the order ids of all legs handed to the broker ascend
    strictly in submission order, so no two legs share an id.  When the
    counter is already set they all lie above it and no id is drawn from the
    session's sequence; when it is unset, either nothing is submitted and
    nothing drawn, or the counter is seeded exactly once and every order id
    lies above the seed. *)
Theorem order_ids_never_repeat (env : Env) (config : Stp2.Config)
    (turns : nat) (w : World) :
  let r := Stp2.poll_cashbox_service env config turns w in
  StronglySorted Z.lt (order_ids (events r)) /\
  NoDup (order_ids (events r)) /\
  (forall n, ORDER_ID_COUNTER w = Some n ->
     seeds (events r) = [] /\ Forall (Z.lt n) (order_ids (events r))) /\
  (ORDER_ID_COUNTER w = None ->
     seeds (events r) = [] /\ order_ids (events r) = [] \/
     exists s, seeds (events r) = [s] /\
               Forall (Z.lt s) (order_ids (events r))).
Proof.
  cbv zeta.
  assert (H : allocates (ORDER_ID_COUNTER w)
                (order_ids (events (Stp2.poll_cashbox_service env config turns w)))
                (seeds (events (Stp2.poll_cashbox_service env config turns w)))
                (ORDER_ID_COUNTER
                   (world (Stp2.poll_cashbox_service env config turns w)))).
  { unfold Stp2.poll_cashbox_service.
    destruct (connect_ok env); [apply stp2_while_True_allocates|].
    apply allocates_nothing. }
  destruct H as [Hs H].
  split; [exact Hs|]. split; [now apply StronglySorted_lt_NoDup|].
  split.
  - intros n E. rewrite E in H. destruct H as (H1 & H2 & _). now split.
  - intro E. rewrite E in H.
    destruct H as [(H1 & H2 & _) | (s & n' & H1 & H2 & _)];
      [left; now split | right; exists s; now split].
Qed.

(** ** When the cursor file is written *)

Lemma list_last_default {A} (l : list A) (d d' : A) :
  l <> [] -> List.last l d = List.last l d'.
Proof.
  induction l as [|x l IH]; [congruence|]. intros _.
  destruct l as [|y l]; [reflexivity|].
  cbn [List.last] in *. apply IH. discriminate.
Qed.

Lemma list_last_app {A} (l1 l2 : list A) (d : A) :
  List.last (l1 ++ l2) d = List.last l2 (List.last l1 d).
Proof.
  induction l1 as [|x l1 IH]; [reflexivity|].
  destruct l2 as [|z l2]; [now rewrite app_nil_r|].
  destruct l1 as [|y l1].
  - cbn [app]. change (List.last (x :: z :: l2) d) with (List.last (z :: l2) d).
    apply list_last_default. discriminate.
  - change (List.last ((x :: y :: l1) ++ z :: l2) d)
      with (List.last ((y :: l1) ++ z :: l2) d).
    rewrite IH. apply list_last_default. discriminate.
Qed.

Lemma stp2_for_trades_written env cfg l : forall c w,
  let r := Stp2.for_trades env cfg l c w in
  last_processed_file (world r)
  = List.last (map Holds (written (events r))) (last_processed_file w) /\
  (returned r = true -> written (events r) = processed (events r)) /\
  (returned r = false ->
     exists id, processed (events r) = written (events r) ++ [id]).
Proof.
  induction l as [|t rest IH]; intros c w; cbv zeta.
  - cbn. split; [easy|]. split; [easy|discriminate].
  - destruct (Z.le_gt_cases (ID t) c) as [Hle|Hgt].
    + rewrite stp2_for_trades_old by exact Hle.
      rewrite events_after, world_after, returned_after.
      cbn [app written processed]. apply IH.
    + rewrite stp2_for_trades_new by exact Hgt.
      pose proof (stp2_process_events env
                    (Stp2.set_source t (Stp2.ORDER_source cfg)) cfg w)
        as (Hp & Hw & Hf). cbv zeta in *.
      destruct (Stp2.process_trade_idea env _ cfg w) as [[] w1 evs|x w1 evs];
        cbn [events world] in *.
      * rewrite events_after, world_after, returned_after.
        change (Print (ProcessingNewTradeID (ID t)) :: evs ++ ?l)
          with ([Print (ProcessingNewTradeID (ID t))] ++ evs ++ l).
        rewrite !written_app, !processed_app, Hp, Hw.
        cbn [written processed app ID Stp2.set_source].
        destruct (IH (ID t) (set_last_processed_file (Holds (ID t)) w1))
          as (H1 & H2 & H3). cbv zeta in *.
        split; [|split].
        -- rewrite H1. cbn [last_processed_file set_last_processed_file map].
           change (Holds (ID t) :: ?l) with ([Holds (ID t)] ++ l).
           now rewrite list_last_app.
        -- intro Hr. now rewrite (H2 Hr).
        -- intro Hr. destruct (H3 Hr) as [id ->]. now exists id.
      * cbn [returned events world written processed]. rewrite Hp, Hw, Hf.
        cbn [ID Stp2.set_source].
        split; [reflexivity|]. split; [discriminate|].
        intros _. now exists (ID t).
Qed.

Lemma stp2_poll_cycle_written env cfg w :
  let r := Stp2.poll_cycle env cfg w in
  last_processed_file (world r)
  = List.last (map Holds (written (events r))) (last_processed_file w) /\
  (returned r = true -> written (events r) = processed (events r)) /\
  (returned r = false ->
     exists id, processed (events r) = written (events r) ++ [id]).
Proof.
  cbv zeta. rewrite stp2_poll_cycle_eq, events_after, world_after,
    returned_after, written_app, processed_app, stp2_prelude_written,
    stp2_prelude_processed. cbn [app].
  destruct (is_nonempty (fetched env w)).
  - destruct (stp2_for_trades_written env cfg (sorted (fetched env w))
                (cursor_value w) (tick_feed w)) as (H1 & H2 & H3).
    cbv zeta in *.
    destruct (Stp2.for_trades env cfg _ _ _) as [c1 w1 evs|x w1 evs];
      cbn [events world returned] in *.
    + rewrite written_app, processed_app. cbn [written processed].
      rewrite !app_nil_r. auto.
    + auto.
  - cbn. split; [easy|]. split; [easy|discriminate].
Qed.

(** X2.  The cursor is written after processing, never before.  In every
    run of the stop-limit script's polling loop, the ids written to the
    cursor file are exactly the ids whose processing returned, in that
    order: all processed ids when the run completes, all but the last one,
    whose processing raised, when it does not.  The file ends holding the
    last id written, and is untouched when none was. *)
Theorem cursor_written_after_processing (env : Env) (config : Stp2.Config)
    (turns : nat) (w : World) :
  let r := Stp2.poll_cashbox_service env config turns w in
  last_processed_file (world r)
  = List.last (map Holds (written (events r))) (last_processed_file w) /\
  (returned r = true -> written (events r) = processed (events r)) /\
  (returned r = false ->
     exists id, processed (events r) = written (events r) ++ [id]).
Proof.
  cbv zeta. unfold Stp2.poll_cashbox_service.
  destruct (connect_ok env);
    [|cbn; split; [easy|]; split; [easy|discriminate]].
  revert w. induction turns as [|n IH]; intro w.
  - cbn. split; [easy|]. split; [easy|discriminate].
  - cbn [Stp2.while_True]. unfold bind.
    destruct (stp2_poll_cycle_written env config w) as (H1 & H2 & H3).
    cbv zeta in *.
    destruct (Stp2.poll_cycle env config w) as [[] w1 evs|x w1 evs];
      cbn [events world returned] in *; [|auto].
    destruct (IH w1) as (K1 & K2 & K3).
    rewrite events_after, world_after, returned_after, written_app,
      processed_app, map_app.
    rewrite (H2 eq_refl) in *.
    split; [|split].
    + now rewrite K1, H1, list_last_app.
    + intro Hr. now rewrite (K2 Hr).
    + intro Hr. destruct (K3 Hr) as [id ->]. exists id.
      now rewrite app_assoc.
Qed.

(** ** The feed *)

(** X3.  A transport error of the feed is an empty batch.  When the request
    to the feed fails, a polling turn of either script reports the error,
    finds no new trade ideas, sleeps its 30 seconds and returns: nothing is
    qualified, priced or placed and the cursor stays as it was. *)
Theorem feed_error_is_an_empty_batch (env : Env) (config : Stp2.Config)
    (config' : Copy.Config) (last_processed_id : option Z) (w : World) :
  feed env (n_feed w) = None ->
  Stp2.poll_cycle env config w
  = Returned tt (tick_feed w)
      [Print match last_processed_file w with
             | Holds id => LastProcessedIdRead id
             | Unparsable => InvalidLastProcessedId
             | Missing => NoLastProcessedIdFile
             end;
       Print Polling; HttpGet; Print ErrorFetchingTradeIdeas;
       Print NoNewTradeIdeas; Sleep 30] /\
  Copy.poll_cycle env config' last_processed_id w
  = Returned last_processed_id (tick_feed w)
      [Print Polling; HttpGet; Print ErrorFetchingTradeIdeas;
       Print NoNewTradeIdeas; Sleep 30].
Proof.
  intro H. rewrite stp2_poll_cycle_eq, copy_poll_cycle_eq.
  unfold stp2_prelude, copy_prelude, fetched. rewrite H. split; reflexivity.
Qed.

Lemma feed_error_is_an_empty_batch_witness :
  let env := {| connect_ok := true; feed := fun _ => None;
                qualifyContracts := fun _ c => [c];
                reqMktData := fun _ _ => quote_5000;
                reqAllOpenOrders := fun _ => [] |} in
  let w := fresh_world in
  Stp2.poll_cycle env (stp2_config (-10)) w
  = Returned tt (tick_feed w)
      [Print match last_processed_file w with
             | Holds id => LastProcessedIdRead id
             | Unparsable => InvalidLastProcessedId
             | Missing => NoLastProcessedIdFile
             end;
       Print Polling; HttpGet; Print ErrorFetchingTradeIdeas;
       Print NoNewTradeIdeas; Sleep 30] /\
  Copy.poll_cycle env copy_config (Some 7) w
  = Returned (Some 7) (tick_feed w)
      [Print Polling; HttpGet; Print ErrorFetchingTradeIdeas;
       Print NoNewTradeIdeas; Sleep 30].
Proof.
  apply (feed_error_is_an_empty_batch
           {| connect_ok := true; feed := fun _ => None;
              qualifyContracts := fun _ c => [c];
              reqMktData := fun _ _ => quote_5000;
              reqAllOpenOrders := fun _ => [] |}
           (stp2_config (-10)) copy_config (Some 7) fresh_world).
  reflexivity.
Defined.

(** ** An idea without an action code *)

(** X4.  A trade idea that has no [BuySell] key.  The stop-limit script
    reads the key with a default: the idea is reported as having an invalid
    (empty) action and skipped, the broker is not contacted, and the loop
    moves the cursor past it.  The limit-entry script indexes the key: a
    [KeyError] is raised before the broker is contacted, and it ends the
    loop over the batch with the cursor file unwritten. *)
Theorem idea_without_action_code (env : Env) (config : Stp2.Config)
    (config' : Copy.Config) (t : Trade) (rest : list Trade) (c : Z)
    (last_processed_id : option Z) (w : World) :
  BuySell t = None ->
  c < ID t ->
  Copy.is_new last_processed_id t = true ->
  Stp2.process_trade_idea env t config w
  = Returned tt w
      [Print (ProcessingTradeID (ID t) (source_tag t));
       Print (InvalidAction "" (ID t))] /\
  Stp2.for_trades env config (t :: rest) c w
  = after [Print (ProcessingNewTradeID (ID t));
           Print (ProcessingTradeID (ID t) (Stp2.ORDER_source config));
           Print (InvalidAction "" (ID t));
           WriteFile (ID t); Print (LastProcessedIdUpdated (ID t))]
      (Stp2.for_trades env config rest (ID t)
         (set_last_processed_file (Holds (ID t)) w)) /\
  Copy.process_trade_idea env t config' w
  = Raised (KeyError "BuySell") w [Print (ProcessingTradeID (ID t) "")] /\
  Copy.for_trades env config' (t :: rest) last_processed_id w
  = Raised (KeyError "BuySell") w [Print (ProcessingTradeID (ID t) "")].
Proof.
  intros Hb Hlt Hn.
  assert (Hc : Copy.process_trade_idea env t config' w
               = Raised (KeyError "BuySell") w
                   [Print (ProcessingTradeID (ID t) "")]).
  { unfold Copy.process_trade_idea, Copy.print. rewrite Hb. now run_head. }
  assert (Hs : forall t', BuySell t' = None ->
             Stp2.process_trade_idea env t' config w
             = Returned tt w
                 [Print (ProcessingTradeID (ID t') (source_tag t'));
                  Print (InvalidAction "" (ID t'))]).
  { intros t' Hb'. rewrite stp2_process_invalid_action.
    - unfold action_code. now rewrite Hb'.
    - rewrite stp2_resolve_action_eq. now rewrite Hb'. }
  split; [now apply Hs|]. split; [|split; [exact Hc|]].
  - rewrite stp2_for_trades_new by exact Hlt.
    rewrite Hs by exact Hb. reflexivity.
  - rewrite copy_for_trades_new by exact Hn. now rewrite Hc.
Qed.

Lemma idea_without_action_code_witness :
  let env := session quote_5000 [] [] in
  let config := stp2_config (-10) in
  let t := {| ID := 8; Symbol := "SPX"; BuySell := None; source := None |} in
  let rest := [idea 9 "B"] in
  let w := fresh_world in
  Stp2.process_trade_idea env t config w
  = Returned tt w
      [Print (ProcessingTradeID (ID t) (source_tag t));
       Print (InvalidAction "" (ID t))] /\
  Stp2.for_trades env config (t :: rest) 3 w
  = after [Print (ProcessingNewTradeID (ID t));
           Print (ProcessingTradeID (ID t) (Stp2.ORDER_source config));
           Print (InvalidAction "" (ID t));
           WriteFile (ID t); Print (LastProcessedIdUpdated (ID t))]
      (Stp2.for_trades env config rest (ID t)
         (set_last_processed_file (Holds (ID t)) w)) /\
  Copy.process_trade_idea env t copy_config w
  = Raised (KeyError "BuySell") w [Print (ProcessingTradeID (ID t) "")] /\
  Copy.for_trades env copy_config (t :: rest) (Some 3) w
  = Raised (KeyError "BuySell") w [Print (ProcessingTradeID (ID t) "")].
Proof.
  apply (idea_without_action_code (session quote_5000 [] [])
           (stp2_config (-10)) copy_config
           {| ID := 8; Symbol := "SPX"; BuySell := None; source := None |}
           [idea 9 "B"] 3 (Some 3) fresh_world);
    reflexivity.
Defined.

(** ** What one idea sends to the broker *)

(** X5.  Never a partial bracket.  Processing one trade idea in the
    stop-limit script hands the broker either nothing or exactly the three
    legs of one bracket, entry, take-profit and stop-loss, priced from a
    positive quote by [order_prices] for the resolved side, in the
    configured quantity, with the three ids that follow the counter (or the
    seed, when the counter was unset); in the second case processing
    returns. *)
Theorem never_a_partial_bracket (env : Env) (config : Stp2.Config)
    (t : Trade) (w : World) :
  let r := Stp2.process_trade_idea env t config w in
  placed (events r) = [] \/
  exists a price p,
    returned r = true /\
    Stp2.resolve_action t = Some a /\
    (0 < price)%Q /\
    Stp2.order_prices a price (Stp2.ORDER_stop_offset config)
      (Stp2.ORDER_limit_offset config) (Stp2.ORDER_stop_loss_offset config)
      (Stp2.ORDER_take_profit_offset config) = Some p /\
    placed (events r)
    = stp2_legs a (Stp2.ORDER_quantity config) (Stp2.stop_price p)
        (Stp2.limit_price p) (Stp2.stop_loss_price p)
        (Stp2.take_profit_price p)
        (match ORDER_ID_COUNTER w with
         | Some n => n
         | None => reqIdSeq w
         end).
Proof.
  cbv zeta.
  destruct (Stp2.resolve_action t) as [a|] eqn:Ha;
    [|left; now rewrite stp2_process_invalid_action].
  destruct (qualifyContracts env (n_qualify w) (stp2_contract config))
    as [|c0 cs] eqn:Hq;
    [left; now rewrite (stp2_process_unqualified _ _ _ _ a)|].
  destruct (stp2_fetch_attempts_spec env c0 Stp2.retry_count 0%nat (tick_qualify w))
    as [(k & price & _ & _ & Hat & Hrun) | (_ & Hrun)].
  - destruct (stp2_process_priced env t config w a c0 cs _ _ _ Ha Hq Hrun)
      as (p & n & w' & pre & Hop & Hpre & Hn & _ & E).
    right. exists a, price, p. rewrite E.
    split; [reflexivity|]. split; [reflexivity|].
    split; [destruct Hat as [[H ->] | (_ & H & ->)]; exact H|].
    split; [exact Hop|]. cbn [events].
    rewrite !placed_app, failed_attempts_placed, Hpre, placed_placing.
    cbn [placed app]. rewrite app_nil_r.
    destruct (after_requests_counter (S k) (tick_qualify w)) as (Ec & Er & _).
    rewrite Ec, Er in Hn. cbn [tick_qualify ORDER_ID_COUNTER reqIdSeq] in Hn.
    now rewrite Hn.
  - left. rewrite (stp2_process_unpriced env t config w a c0 cs _ _ _ Ha Hq Hrun).
    cbn [events]. rewrite placed_app, failed_attempts_placed. reflexivity.
Qed.

(** X6.  The limit-entry script checks the action code last.  For an idea
    whose code is neither B nor S and whose contract qualifies, the script
    still asks the broker for a quote: with a usable reading it then reports
    the invalid action and returns, no id drawn and nothing placed; with no
    usable reading it raises the [ValueError] of the price lookup, so the
    invalid code is never reported. *)
Theorem copy_checks_action_code_last (env : Env) (config : Copy.Config)
    (t : Trade) (code : string) (c0 : Contract) (cs : list Contract)
    (w : World) :
  BuySell t = Some code ->
  Copy.resolve_action code = None ->
  qualifyContracts env (n_qualify w) (copy_contract t config) = c0 :: cs ->
  let reading := reqMktData env (n_mktdata w) c0 in
  let r := Copy.process_trade_idea env t config w in
  In (ReqMktData c0) (events r) /\
  placed (events r) = [] /\
  seeds (events r) = [] /\
  (usable reading = true ->
     returned r = true /\ In (Print (InvalidAction code (ID t))) (events r)) /\
  (usable reading = false ->
     r = Raised (ValueError "Unable to fetch the latest price for the contract.")
           (tick_mktdata (tick_qualify w))
           [Print (ProcessingTradeID (ID t) "");
            QualifyContracts (copy_contract t config);
            ReqMktData c0; Sleep 2]).
Proof.
  intros Hb Ha Hq. cbv zeta.
  unfold Copy.process_trade_idea, Copy.print, Copy.ib_qualifyContracts.
  rewrite Hb. run_head. fold (copy_contract t config). rewrite Hq. run_head.
  unfold Copy.fetch_latest_price, Copy.ib_reqMktData, Copy.sleep. run_head.
  rewrite Ha. unfold usable.
  change (n_mktdata (tick_qualify w)) with (n_mktdata w).
  destruct (Py.gt (last (reqMktData env (n_mktdata w) c0)) 0); run_head;
    [cbn; intuition discriminate|].
  destruct (Py.gt (close (reqMktData env (n_mktdata w) c0)) 0); run_head;
    cbn; intuition discriminate.
Qed.

Lemma copy_checks_action_code_last_witness :
  let env := session no_quote [] [] in
  let t := idea 4 "L" in
  let w := fresh_world in
  let reading := reqMktData env (n_mktdata w) MES in
  let r := Copy.process_trade_idea env t copy_config w in
  In (ReqMktData MES) (events r) /\
  placed (events r) = [] /\
  seeds (events r) = [] /\
  (usable reading = true ->
     returned r = true /\ In (Print (InvalidAction "L" (ID t))) (events r)) /\
  (usable reading = false ->
     r = Raised (ValueError "Unable to fetch the latest price for the contract.")
           (tick_mktdata (tick_qualify w))
           [Print (ProcessingTradeID (ID t) "");
            QualifyContracts (copy_contract t copy_config);
            ReqMktData MES; Sleep 2]).
Proof.
  apply (copy_checks_action_code_last (session no_quote [] []) copy_config
           (idea 4 "L") "L" MES [] fresh_world);
    reflexivity.
Defined.

(** ** The bracket of the limit-entry script *)





(** ** The price both scripts act on *)

(** X9.  A quoted price is positive.  Whenever [fetch_latest_price] returns,
    the price is strictly positive; the stop-limit script has then made
    between one and three requests, the limit-entry script exactly one. *)
Theorem quoted_price_is_positive (env : Env) (c : Contract) (w w' : World)
    (price : Q) :
  (forall evs,
     Stp2.fetch_latest_price env c w = Returned price w' evs ->
     (0 < price)%Q /\
     (n_mktdata w < n_mktdata w' <= n_mktdata w + 3)%nat) /\
  (forall evs,
     Copy.fetch_latest_price env c w = Returned price w' evs ->
     (0 < price)%Q /\ n_mktdata w' = S (n_mktdata w) /\
     evs = [ReqMktData c; Sleep 2]).
Proof.
  assert (Hn : forall k w0, n_mktdata (after_requests k w0)
                            = (n_mktdata w0 + k)%nat).
  { induction k as [|k IH]; intro w0; cbn [after_requests]; [lia|].
    rewrite IH. cbn. lia. }
  split; intros evs H.
  - destruct (stp2_fetch_attempts_spec env c Stp2.retry_count 0%nat w)
      as [(k & p & Hk & _ & Hat & Hrun) | (_ & Hrun)];
      unfold Stp2.fetch_latest_price in H; rewrite Hrun in H;
      [|discriminate].
    injection H as <- <- _. rewrite Hn. unfold Stp2.retry_count in Hk.
    split; [destruct Hat as [[Hp ->] | (_ & Hp & ->)]; exact Hp |].
    cbn [n_mktdata tick_mktdata]. lia.
  - unfold Copy.fetch_latest_price, Copy.ib_reqMktData, Copy.sleep in H.
    revert H. run_head.
    destruct (Py.gt (last _) 0) eqn:El; run_head.
    { cbn. intros [= <- <- <-]. apply gt_zero_iff in El. auto. }
    destruct (Py.gt (close _) 0) eqn:Ec; run_head; [|discriminate].
    cbn. intros [= <- <- <-]. apply gt_zero_iff in Ec. auto.
Qed.

(** ** The cursor file as text *)

Module CursorTextFacts.
Import Decimal DecimalString.


















End CursorTextFacts.



(** ** Counting the open orders *)







(** ** The entry points *)

Lemma prefix_append p : forall s,
  String.prefix p s = true -> exists r, s = (p ++ r)%string.
Proof.
  induction p as [|a p IH]; intros s H; [now exists s|].
  destruct s as [|b s]; cbn [String.prefix] in H; [discriminate|].
  destruct (ascii_dec a b) as [->|]; [|discriminate].
  destruct (IH s H) as [r ->]. now exists r.
Qed.

Lemma prefix_append_true p r : String.prefix p (p ++ r)%string = true.
Proof.
  induction p as [|a p IH]; cbn [append]; [now destruct r|].
  cbn [String.prefix]. destruct (ascii_dec a a); [exact IH | congruence].
Qed.

Lemma split_contract name :
  Cli.split_once "=" ("contract=" ++ name)%string = ["contract"; name].
Proof. reflexivity. Qed.

Lemma length_two {A} (l : list A) :
  Nat.eqb (List.length l) 2 = true -> exists a b, l = [a; b].
Proof.
  destruct l as [|a [|b [|]]]; try discriminate. intros _. now exists a, b.
Qed.

(** X13.  The command line of the stop-limit script.  The script starts
    polling exactly when it is given one argument of the form
    [contract=<name>] and the file of that name exists in the configuration
    directory; the name is all that follows the first equals sign, and the
    configuration polled with is the one read from that file.  Otherwise it
    ends with a message: the split of the argument never fails, and the
    [FileNotFoundError] of [load_config] cannot be raised from here, the
    existence of the file having been checked before the call. *)
Theorem stp2_main_starts_polling (disk : Cli.Disk Stp2.Config)
    (argv : list string) :
  (forall config,
     Cli.stp2_main disk argv = Cli.Poll config <->
     exists prog name,
       argv = [prog; ("contract=" ++ name)%string] /\
       Cli.os_path_exists disk (Cli.config_file_path disk name) = true /\
       config = Cli.config_read disk (Cli.config_file_path disk name)) /\
  Cli.stp2_main disk argv <> Cli.IndexError /\
  Cli.stp2_main disk argv <> Cli.InvalidArgument /\
  (forall path, Cli.stp2_main disk argv <> Cli.FileNotFoundError path).
Proof.
  unfold Cli.stp2_main, Cli.load_config.
  destruct (Nat.eqb (List.length argv) 2) eqn:El; cbn [negb].
  2:{ split; [|repeat split; discriminate].
      intro config. split; [discriminate|].
      intros (prog & name & -> & _). discriminate El. }
  destruct (length_two argv El) as (prog & arg & ->). cbn [nth_error].
  destruct (String.prefix "contract=" arg) eqn:Ep; cbn [negb].
  2:{ split; [|repeat split; discriminate].
      intro config. split; [discriminate|].
      intros (prog' & name & E & _).
      assert (Ea : arg = ("contract=" ++ name)%string) by congruence.
      rewrite Ea, prefix_append_true in Ep. discriminate Ep. }
  destruct (prefix_append _ _ Ep) as [name ->].
  rewrite split_contract. cbn [nth_error].
  destruct (Cli.os_path_exists disk (Cli.config_file_path disk name)) eqn:Ex;
    cbn [negb].
  - split; [|repeat split; discriminate].
    intro config. split.
    + intro E. injection E as <-. now exists prog, name.
    + intros (prog' & name' & E & _ & ->).
      assert (En : name' = name) by (cbn [append] in E; congruence).
      now rewrite En.
  - split; [|repeat split; discriminate].
    intro config. split; [discriminate|].
    intros (prog' & name' & E & Hx & _).
    assert (En : name' = name) by (cbn [append] in E; congruence).
    congruence.
Qed.

(** X14.  The command line of the limit-entry script.  It starts polling
    under the same condition as the stop-limit script, with the
    configuration read from the named file.  It tells the two mistakes
    apart: a wrong number of arguments gets the usage line, one argument
    that does not start with [contract=] gets the invalid-argument line.
    No [IndexError] escapes the split of the argument. *)
Theorem copy_main_starts_polling (disk : Cli.Disk Copy.Config)
    (argv : list string) :
  (forall config,
     Cli.copy_main disk argv = Cli.Poll config <->
     exists prog name,
       argv = [prog; ("contract=" ++ name)%string] /\
       Cli.os_path_exists disk (Cli.config_file_path disk name) = true /\
       config = Cli.config_read disk (Cli.config_file_path disk name)) /\
  (Cli.copy_main disk argv = Cli.Usage <-> List.length argv <> 2%nat) /\
  (Cli.copy_main disk argv = Cli.InvalidArgument <->
   exists prog arg,
     argv = [prog; arg] /\ String.prefix "contract=" arg = false) /\
  Cli.copy_main disk argv <> Cli.IndexError /\
  (forall path, Cli.copy_main disk argv <> Cli.FileNotFoundError path).
Proof.
  unfold Cli.copy_main.
  destruct (Nat.eqb (List.length argv) 2) eqn:El; cbn [negb].
  2:{ apply Nat.eqb_neq in El.
      split; [|split; [tauto|split; [|split; discriminate]]].
      - intro config. split; [discriminate|].
        intros (prog & name & -> & _). now elim El.
      - split; [discriminate|]. intros (prog & arg & -> & _). now elim El. }
  destruct (length_two argv El) as (prog & arg & ->). cbn [nth_error].
  apply Nat.eqb_eq in El.
  destruct (String.prefix "contract=" arg) eqn:Ep; cbn [negb].
  2:{ split; [|split; [|split; [|split; discriminate]]].
      - intro config. split; [discriminate|].
        intros (prog' & name & E & _).
        assert (Ea : arg = ("contract=" ++ name)%string) by congruence.
        rewrite Ea, prefix_append_true in Ep. discriminate Ep.
      - split; [discriminate | intro H; now elim H].
      - split; [|reflexivity]. intros _. now exists prog, arg. }
  assert (Hinv : ~ exists prog' arg',
                     [prog; arg] = [prog'; arg'] /\
                     String.prefix "contract=" arg' = false).
  { intros (prog' & arg' & E & H). congruence. }
  destruct (prefix_append _ _ Ep) as [name ->].
  rewrite split_contract. cbn [nth_error].
  destruct (Cli.os_path_exists disk (Cli.config_file_path disk name)) eqn:Ex;
    cbn [negb].
  - split; [|split; [|split; [|split; discriminate]]].
    + intro config. split.
      * intro E. injection E as <-. now exists prog, name.
      * intros (prog' & name' & E & _ & ->).
        assert (En : name' = name) by (cbn [append] in E; congruence).
        now rewrite En.
    + split; [discriminate | intro H; now elim H].
    + split; [discriminate | intro H; now elim Hinv].
  - split; [|split; [|split; [|split; discriminate]]].
    + intro config. split; [discriminate|].
      intros (prog' & name' & E & Hx & _).
      assert (En : name' = name) by (cbn [append] in E; congruence).
      congruence.
    + split; [discriminate | intro H; now elim H].
    + split; [discriminate | intro H; now elim Hinv].
Qed.

(** ** The cursor of the limit-entry script *)

Lemma after_Returned_inv {O A} (pre : list (Event O))
    (r : Run World (Event O) Exn A) v w1 evs :
  after pre r = Returned v w1 evs ->
  exists evs0, r = Returned v w1 evs0 /\ evs = pre ++ evs0.
Proof.
  destruct r as [a w e|x w e]; cbn [after]; intro E; [|discriminate].
  injection E as -> -> <-. now exists e.
Qed.

Lemma copy_for_trades_written env cfg l : forall last w,
  let r := Copy.for_trades env cfg l last w in
  last_processed_file (world r)
  = List.last (map Holds (written (events r))) (last_processed_file w) /\
  (forall v w1 evs, r = Returned v w1 evs ->
     written evs = processed evs /\
     v = List.last (map Some (written evs)) last) /\
  (returned r = false ->
     exists id, processed (events r) = written (events r) ++ [id]).
Proof.
  induction l as [|t rest IH]; intros last w; cbv zeta.
  - cbn. split; [easy|]. split; [|discriminate].
    intros v w1 evs E. injection E as <- <- <-. now cbn.
  - destruct (Copy.is_new last t) eqn:En.
    + rewrite copy_for_trades_new by exact En.
      pose proof (copy_process_events env t cfg w) as (Hp & Hw & Hf).
      cbv zeta in *.
      destruct (Copy.process_trade_idea env t cfg w) as [[] w1 evs|x w1 evs];
        cbn [events world] in *.
      * destruct (IH (Some (ID t)) (set_last_processed_file (Holds (ID t)) w1))
          as (H1 & H2 & H3). cbv zeta in *.
        rewrite events_after, world_after, returned_after.
        rewrite !written_app, !processed_app, Hp, Hw.
        cbn [written processed app].
        split; [|split].
        -- rewrite H1. cbn [last_processed_file set_last_processed_file map].
           change (Holds (ID t) :: ?l) with ([Holds (ID t)] ++ l).
           now rewrite list_last_app.
        -- intros v w2 evs2 E.
           destruct (Copy.for_trades env cfg rest (Some (ID t)) _)
             as [v' w' evs'|x w' evs'] eqn:Er; cbn [after] in E; [|discriminate].
           injection E as <- <- <-.
           destruct (H2 _ _ _ eq_refl) as [K1 K2].
           rewrite !written_app, !processed_app, Hp, Hw.
           cbn [written processed app events] in *.
           split; [now rewrite K1|].
           rewrite K2. cbn [map].
           change (Some (ID t) :: ?l) with ([Some (ID t)] ++ l).
           now rewrite list_last_app.
        -- intro Hr. destruct (H3 Hr) as [id ->]. now exists id.
      * cbn [returned events world written processed]. rewrite Hp, Hw, Hf.
        split; [reflexivity|]. split; [discriminate|].
        intros _. now exists (ID t).
    + rewrite copy_for_trades_old by exact En.
      destruct (IH last w) as (H1 & H2 & H3). cbv zeta in *.
      rewrite events_after, world_after, returned_after.
      cbn [app written processed].
      split; [exact H1|]. split; [|exact H3].
      intros v w2 evs2 E.
      destruct (Copy.for_trades env cfg rest last w)
        as [v' w' evs'|x w' evs'] eqn:Er; cbn [after] in E; [|discriminate].
      injection E as <- <- <-. cbn [app written processed].
      exact (H2 _ _ _ eq_refl).
Qed.

Lemma copy_prelude_written env w : written (copy_prelude env w) = [].
Proof. unfold copy_prelude. now destruct (feed env (n_feed w)). Qed.

Lemma copy_poll_cycle_written env cfg last w :
  let r := Copy.poll_cycle env cfg last w in
  last_processed_file (world r)
  = List.last (map Holds (written (events r))) (last_processed_file w) /\
  (forall v w1 evs, r = Returned v w1 evs ->
     written evs = processed evs /\
     v = List.last (map Some (written evs)) last) /\
  (returned r = false ->
     exists id, processed (events r) = written (events r) ++ [id]).
Proof.
  cbv zeta. rewrite copy_poll_cycle_eq.
  rewrite events_after, world_after, returned_after, written_app,
    processed_app, copy_prelude_written, copy_prelude_processed.
  cbn [app].
  destruct (is_nonempty (fetched env w)).
  - destruct (copy_for_trades_written env cfg (sorted (fetched env w)) last
                (tick_feed w)) as (H1 & H2 & H3). cbv zeta in *.
    destruct (Copy.for_trades env cfg (sorted (fetched env w)) last
                (tick_feed w)) as [v w1 evs|x w1 evs];
      cbn [events world returned] in *.
    + destruct (H2 _ _ _ eq_refl) as [K1 K2].
      rewrite written_app, processed_app. cbn [written processed].
      rewrite !app_nil_r. split; [exact H1|]. split; [|discriminate].
      intros v' w' evs' E. apply after_Returned_inv in E.
      destruct E as (evs0 & E & ->). injection E as <- <- <-.
      rewrite written_app, processed_app, copy_prelude_written,
        copy_prelude_processed. cbn [app].
      rewrite written_app, processed_app. cbn [written processed].
      rewrite !app_nil_r. now split.
    + split; [exact H1|]. split; [|exact H3].
      intros v' w' evs' E. apply after_Returned_inv in E.
      destruct E as (evs0 & E & _). discriminate E.
  - cbn [events world returned written processed].
    split; [reflexivity|]. split; [|discriminate].
    intros v' w' evs' E. apply after_Returned_inv in E.
    destruct E as (evs0 & E & ->). injection E as <- <- <-.
    rewrite written_app, processed_app, copy_prelude_written,
      copy_prelude_processed. now cbn.
Qed.

Lemma copy_while_True_written env cfg turns : forall last w,
  let r := Copy.while_True env turns cfg last w in
  last_processed_file (world r)
  = List.last (map Holds (written (events r))) (last_processed_file w) /\
  (returned r = true -> written (events r) = processed (events r)) /\
  (returned r = false ->
     exists id, processed (events r) = written (events r) ++ [id]).
Proof.
  induction turns as [|n IH]; intros last w; cbv zeta.
  - cbn. split; [easy|]. split; [easy|discriminate].
  - cbn [Copy.while_True]. unfold bind.
    destruct (copy_poll_cycle_written env cfg last w) as (H1 & H2 & H3).
    cbv zeta in *.
    destruct (Copy.poll_cycle env cfg last w) as [v w1 evs|x w1 evs];
      cbn [events world returned] in *;
      [|split; [exact H1|]; split; [discriminate | exact H3]].
    destruct (H2 _ _ _ eq_refl) as [K1 K2].
    destruct (IH v w1) as (J1 & J2 & J3).
    rewrite events_after, world_after, returned_after, written_app,
      processed_app, map_app.
    rewrite K1 in *.
    split; [|split].
    + now rewrite J1, H1, list_last_app.
    + intro Hr. now rewrite (J2 Hr).
    + intro Hr. destruct (J3 Hr) as [id ->]. exists id.
      now rewrite app_assoc.
Qed.

Lemma copy_poll_cashbox_service_eq env cfg turns w :
  Copy.poll_cashbox_service env cfg turns w
  = if connect_ok env
    then Copy.while_True env turns cfg
           match last_processed_file w with
           | Holds id => Some id
           | _ => None
           end w
    else Returned tt w [Print ApiConnectionFailed].
Proof.
  unfold Copy.poll_cashbox_service, Copy.read_last_processed_id, Copy.print.
  run_head. destruct (last_processed_file w); run_head;
    now destruct (connect_ok env).
Qed.

(** X15.  The cursor of the limit-entry script.  In every run of its
    polling loop the ids written to the cursor file are the ids whose
    processing returned, in that order, and the file ends holding the last
    of them.  The cursor the loop keeps in memory follows the file: after a
    turn it is the last id written in the turn, and the cursor of before
    when the turn wrote none. *)
Theorem copy_cursor_follows_processing (env : Env) (config : Copy.Config)
    (turns : nat) (w : World) :
  let r := Copy.poll_cashbox_service env config turns w in
  last_processed_file (world r)
  = List.last (map Holds (written (events r))) (last_processed_file w) /\
  (returned r = true -> written (events r) = processed (events r)) /\
  (returned r = false ->
     exists id, processed (events r) = written (events r) ++ [id]) /\
  (forall last w0 v w1 evs,
     Copy.poll_cycle env config last w0 = Returned v w1 evs ->
     v = List.last (map Some (written evs)) last /\
     (written evs <> [] -> option_map Holds v = Some (last_processed_file w1))).
Proof.
  cbv zeta. split; [|split; [|split]].
  4:{ intros last w0 v w1 evs E.
      destruct (copy_poll_cycle_written env config last w0) as (H1 & H2 & _).
      cbv zeta in *. rewrite E in *. cbn [world events] in *.
      destruct (H2 _ _ _ eq_refl) as [_ K]. split; [exact K|].
      intro Hne. rewrite K, H1.
      destruct (written evs) as [|i l] using rev_ind; [congruence|].
      rewrite !map_app, !list_last_app. reflexivity. }
  all: rewrite copy_poll_cashbox_service_eq;
    (destruct (connect_ok env);
     [ apply copy_while_True_written
     | cbn; try easy; try discriminate ]).
Qed.

(** ** Starting without a cursor *)






(** ** What the limit-entry script makes of the cursor file *)

Section FileBlind.

Context {O : Type}.
Notation "'Comp' A" := (M World (Event O) Exn A) (at level 10, only parsing).

Lemma file_blind_ret {A} (a : A) : file_blind (ret a : Comp A).
Proof. intros w w' H. now cbn. Qed.

Lemma file_blind_raise {A} (x : Exn) : file_blind (raise x : Comp A).
Proof. intros w w' H. now cbn. Qed.

Lemma file_blind_gets {A} (f : World -> A) :
  (forall w w', same_but_file w w' -> f w = f w') ->
  file_blind (gets f : Comp A).
Proof. intros Hf w w' H. cbn. auto. Qed.

Lemma file_blind_modify (f : World -> World) :
  (forall w w', same_but_file w w' -> same_but_file (f w) (f w')) ->
  file_blind (modify f : Comp unit).
Proof. intros Hf w w' H. cbn. auto. Qed.

Lemma file_blind_emit (e : Event O) : file_blind (emit e : Comp unit).
Proof. intros w w' H. now cbn. Qed.

Lemma file_blind_bind {A B} (m : Comp A) (k : A -> Comp B) :
  file_blind m -> (forall a, file_blind (k a)) -> file_blind (bind m k).
Proof.
  intros Hm Hk w w' H. unfold bind. specialize (Hm w w' H).
  destruct (m w) as [a w1 e1|x w1 e1], (m w') as [a' w1' e1'|x' w1' e1'];
    cbn [agree] in Hm; try contradiction; [|exact Hm].
  destruct Hm as (<- & <- & Hw). specialize (Hk a w1 w1' Hw).
  destruct (k a w1) as [b w2 e2|x w2 e2], (k a w1') as [b' w2' e2'|x' w2' e2'];
    cbn [agree after] in *; try contradiction;
    destruct Hk as (<- & <- & Hw'); auto.
Qed.

End FileBlind.

Ltac same_but_file_tac :=
  solve [unfold same_but_file in *; cbn; intuition congruence].

Create HintDb file_blind.

Ltac file_blind_step :=
  first
    [ solve [auto 1 with file_blind]
    | apply file_blind_ret
    | apply file_blind_raise
    | apply file_blind_gets; intros ? ? ?; same_but_file_tac
    | apply file_blind_modify; intros ? ? ?; same_but_file_tac
    | apply file_blind_emit
    | apply file_blind_bind; [|intro]
    | match goal with
      | |- file_blind (match ?x with _ => _ end) => destruct x
      end
    | assumption ].

Ltac file_blind_tac := repeat (cbv zeta; file_blind_step).

Lemma copy_place_all_file_blind c orders : file_blind (Copy.place_all c orders).
Proof.
  induction orders as [|o rest IH]; cbn [Copy.place_all].
  - file_blind_tac.
  - unfold Copy.ib_placeOrder. file_blind_tac.
Qed.

#[local] Hint Resolve copy_place_all_file_blind : file_blind.

Lemma copy_process_file_blind env t cfg :
  file_blind (Copy.process_trade_idea env t cfg).
Proof.
  unfold Copy.process_trade_idea, Copy.ib_qualifyContracts,
    Copy.fetch_latest_price, Copy.ib_reqMktData, Copy.sleep,
    Copy.ib_client_getReqId, Copy.bracket_order,
    Copy.place_orders_if_under_limit, Copy.check_order_limit,
    Copy.ib_reqAllOpenOrders, Copy.print.
  file_blind_tac.
Qed.

#[local] Hint Resolve copy_process_file_blind : file_blind.

Lemma copy_for_trades_file_blind env cfg l : forall last,
  file_blind (Copy.for_trades env cfg l last).
Proof.
  induction l as [|t rest IH]; intro last; cbn [Copy.for_trades].
  - file_blind_tac.
  - unfold Copy.write_last_processed_id, Copy.print.
    file_blind_tac.
Qed.

#[local] Hint Resolve copy_for_trades_file_blind : file_blind.

Lemma copy_poll_cycle_file_blind env cfg last :
  file_blind (Copy.poll_cycle env cfg last).
Proof.
  unfold Copy.poll_cycle, Copy.fetch_trade_ideas, Copy.sleep, Copy.print.
  file_blind_tac.
Qed.

#[local] Hint Resolve copy_poll_cycle_file_blind : file_blind.

Lemma copy_while_True_file_blind env cfg turns : forall last,
  file_blind (Copy.while_True env turns cfg last).
Proof.
  induction turns as [|n IH]; intro last; cbn [Copy.while_True].
  - file_blind_tac.
  - file_blind_tac.
Qed.

(** X17.  The limit-entry script reads the cursor file once.  Its polling
    loop works from the cursor it holds in memory and never looks at the
    file: two runs of the loop from the same cursor, in worlds that differ
    only in what the file holds, perform the same events and both return or
    both raise.  Once a run has written an id, the two files hold the same
    as well. *)
Theorem copy_reads_the_cursor_file_once (env : Env) (config : Copy.Config)
    (turns : nat) (last_processed_id : option Z) (f : FileState) (w : World) :
  let r := Copy.while_True env turns config last_processed_id w in
  let r' := Copy.while_True env turns config last_processed_id
              (set_last_processed_file f w) in
  events r' = events r /\
  returned r' = returned r /\
  (written (events r) <> [] ->
   last_processed_file (world r') = last_processed_file (world r)).
Proof.
  cbv zeta.
  assert (Hs : same_but_file w (set_last_processed_file f w))
    by same_but_file_tac.
  pose proof (copy_while_True_file_blind env config turns last_processed_id
                w (set_last_processed_file f w) Hs) as Ha.
  destruct (copy_while_True_written env config turns last_processed_id w)
    as (H1 & _).
  destruct (copy_while_True_written env config turns last_processed_id
              (set_last_processed_file f w)) as (H1' & _).
  cbv zeta in H1, H1'.
  assert (He : events (Copy.while_True env turns config last_processed_id
                         (set_last_processed_file f w))
               = events (Copy.while_True env turns config last_processed_id w)
               /\ returned (Copy.while_True env turns config last_processed_id
                              (set_last_processed_file f w))
                  = returned (Copy.while_True env turns config
                                last_processed_id w)).
  { destruct (Copy.while_True env turns config last_processed_id w)
      as [a w1 e|x w1 e],
      (Copy.while_True env turns config last_processed_id
         (set_last_processed_file f w)) as [a' w1' e'|x' w1' e'];
      cbn [agree] in Ha; try contradiction;
      destruct Ha as (_ & <- & _); now cbn. }
  destruct He as [He Hr]. split; [exact He|]. split; [exact Hr|].
  intro Hne. rewrite H1, H1', He.
  apply list_last_default. intro E. apply map_eq_nil in E. contradiction.
Qed.
